(** * Budgeting app: aggregation engine and transaction service

    A shallow embedding of
    - the aggregation functions of the [BudgetingApp] component
      ([calculateMonthlyData], [calculateAnnualData], [expensesByCategory],
      [monthlyChartData]) and its updates of the local state, and
    - the route handlers of [api/transactions] ([GET], [POST], [PUT],
      [DELETE]) over the [Transaction] model.

    JavaScript numbers are IEEE 754 binary64 values; they are embedded as
    Rocq's primitive floats, whose operations the library specifies by
    [SpecFloat].  A JavaScript string is a sequence of code units; it is
    embedded as a Rocq string, one character for each code unit, which
    covers the strings whose code units are below 256. *)

From Stdlib Require Import Floats ZArith Lia.
Set Warnings "-inexact-float,-register-all".
From Stdlib Require Import Strings.String Strings.Ascii.
From stdpp Require Import base option list sorting strings gmap.

Local Open Scope string_scope.
Local Open Scope list_scope.

(** ** Numbers *)

(** The operations the aggregation code applies to amounts: the literal
    [0], [+] (also as [+=]), binary [-], and [x || 0]. *)
Class Number (num : Type) : Type := {
  num_zero : num;
  num_add : num -> num -> num;
  num_sub : num -> num -> num;
  num_or_zero : num -> num
}.

(** JavaScript numbers.  [x || 0] yields [0] when [x] is falsy, which for
    a number means [+0], [-0] or [NaN]. *)
Definition float_falsy (x : float) : bool :=
  PrimFloat.eqb x 0%float || negb (PrimFloat.eqb x x).

#[export] Instance float_Number : Number float := {|
  num_zero := 0%float;
  num_add := PrimFloat.add;
  num_sub := PrimFloat.sub;
  num_or_zero := fun x => if float_falsy x then 0%float else x
|}.

(** ** Decimal numerals *)

Fixpoint digitsToZ_from (acc : Z) (s : string) : option Z :=
  match s with
  | EmptyString => Some acc
  | String c s' =>
      let n := nat_of_ascii c in
      if ((48 <=? n) && (n <=? 57))%nat
      then digitsToZ_from (10 * acc + Z.of_nat (n - 48)) s'
      else None
  end.

(** A non-empty string of decimal digits, as an integer. *)
Definition digitsToZ (s : string) : option Z :=
  match s with
  | EmptyString => None
  | _ => digitsToZ_from 0 s
  end.

(** ** JavaScript objects used as dictionaries

    [monthlyData] and [categories] are plain objects, created by [{}] and
    indexed by strings.  An object is embedded as the list of its own
    properties in the order in which [Object.entries] lists them: first the
    keys that are array indices, in ascending numeric order, then the other
    keys in the order of their first assignment.  Each key occurs once. *)

(** The value of a key that is an array index: a decimal numeral without
    a leading zero, below [2^32 - 1]. *)
Definition arrayIndex (k : string) : option Z :=
  match k with
  | EmptyString => None
  | String c k' =>
      if Ascii.eqb c "0"
      then match k' with EmptyString => Some 0%Z | _ => None end
      else match digitsToZ k with
           | Some n => if (n <? 4294967295)%Z then Some n else None
           | None => None
           end
  end.

(** The names of the members of [Object.prototype], which every plain
    object inherits: eleven functions and the accessor [__proto__]. *)
Definition objectPrototypeNames : list string :=
  [ "constructor"; "__defineGetter__"; "__defineSetter__"; "hasOwnProperty";
    "__lookupGetter__"; "__lookupSetter__"; "isPrototypeOf";
    "propertyIsEnumerable"; "toString"; "valueOf"; "__proto__";
    "toLocaleString" ].

Definition inheritedFromObject (k : string) : bool :=
  existsb (String.eqb k) objectPrototypeNames.

(** What reading [o[k]] finds: an own property, else a member of
    [Object.prototype] (a function, or for [__proto__] the prototype
    itself: truthy in both cases), else [undefined]. *)
Inductive Property (V : Type) : Type :=
| Own (v : V)
| Inherited
| Undefined.
Arguments Own {V} v.
Arguments Inherited {V}.
Arguments Undefined {V}.

Section Obj.
Context {V : Type}.

Definition Obj : Type := list (string * V).

(** The own property [k] of [o]. *)
Fixpoint obj_get (k : string) (o : Obj) : option V :=
  match o with
  | [] => None
  | (k', v) :: o' => if String.eqb k k' then Some v else obj_get k o'
  end.

(** [o[k]] *)
Definition obj_read (k : string) (o : Obj) : Property V :=
  match obj_get k o with
  | Some v => Own v
  | None => if inheritedFromObject k then Inherited else Undefined
  end.

(** The value of an own property is overwritten where it stands. *)
Fixpoint obj_replace (k : string) (v : V) (o : Obj) : Obj :=
  match o with
  | [] => []
  | (k', v') :: o' =>
      if String.eqb k k' then (k', v) :: o' else (k', v') :: obj_replace k v o'
  end.

(** A new array index [n] goes before the first key that is a greater
    index or no index. *)
Fixpoint obj_insert_index (n : Z) (k : string) (v : V) (o : Obj) : Obj :=
  match o with
  | [] => [(k, v)]
  | (k', v') :: o' =>
      match arrayIndex k' with
      | Some n' => if (n' <? n)%Z
                   then (k', v') :: obj_insert_index n k v o'
                   else (k, v) :: o
      | None => (k, v) :: o
      end
  end.

(** [o[k] = v], for a key other than [__proto__] (assigning to that one
    calls the inherited setter). *)
Definition obj_set (k : string) (v : V) (o : Obj) : Obj :=
  match obj_get k o with
  | Some _ => obj_replace k v o
  | None =>
      match arrayIndex k with
      | Some n => obj_insert_index n k v o
      | None => o ++ [(k, v)]
      end
  end.

(** [Object.keys(o)] *)
Definition obj_keys (o : Obj) : list string := map fst o.

(** [Object.values(o)] *)
Definition obj_values (o : Obj) : list V := map snd o.
End Obj.
Arguments Obj V : clear implicits.

(** ** Data model and aggregation *)
Section Aggregation.
Context {num : Type} `{Number num}.

(** [type Transaction]; [type] is kept a string: the records come from
    the server, which stores any string there. *)
Record Transaction : Type := {
  _id : string;
  description : string;
  amount : num;
  type : string;
  category : string;
  date : string
}.

(** One value of [MonthlyData]. *)
Record MonthlyBucket : Type := {
  income : num;
  expenses : num;
  balance : num;
  transactions : list Transaction
}.

Definition MonthlyData : Type := Obj MonthlyBucket.

Record AnnualData : Type := {
  annual_income : num;
  annual_expenses : num;
  annual_balance : num
}.

(** [transaction.date.substring(0, 7)]: the first seven characters, or
    the whole string when it is shorter. *)
Definition monthYear (t : Transaction) : string :=
  String.substring 0 7 (date t).

Definition isIncome (t : Transaction) : bool := String.eqb (type t) "income".
Definition isExpense (t : Transaction) : bool := String.eqb (type t) "expense".

Definition emptyBucket : MonthlyBucket :=
  {| income := num_zero; expenses := num_zero; balance := num_zero;
     transactions := [] |}.

(** The statements of the loop body that update the bucket of the
    transaction's month: the [if]/[else] on the type, the recomputed
    balance, and the [push]. *)
Definition addToBucket (t : Transaction) (b : MonthlyBucket) : MonthlyBucket :=
  let b1 :=
    if isIncome t
    then {| income := num_add (income b) (amount t); expenses := expenses b;
            balance := balance b; transactions := transactions b |}
    else {| income := income b; expenses := num_add (expenses b) (amount t);
            balance := balance b; transactions := transactions b |} in
  {| income := income b1; expenses := expenses b1;
     balance := num_sub (income b1) (expenses b1);
     transactions := transactions b1 ++ [t] |}.

(** Body of the [forEach] of [calculateMonthlyData].  When
    [monthlyData[monthYear]] is [undefined] the empty bucket is assigned;
    then the bucket is read again and updated.  For a key that names a
    member of [Object.prototype] the read is truthy, no bucket is made, and
    [monthlyData[monthYear].transactions.push] throws a [TypeError], the
    member having no [transactions]: [None]. *)
Definition monthlyStep (monthlyData : MonthlyData) (t : Transaction)
  : option MonthlyData :=
  let k := monthYear t in
  let monthlyData1 :=
    match obj_read k monthlyData with
    | Undefined => obj_set k emptyBucket monthlyData
    | _ => monthlyData
    end in
  match obj_read k monthlyData1 with
  | Own b => Some (obj_set k (addToBucket t b) monthlyData1)
  | _ => None
  end.

(** [None] when the loop throws: nothing catches it, and the component
    does not render. *)
Definition calculateMonthlyData (txs : list Transaction) : option MonthlyData :=
  foldl (fun acc t => monthlyData ← acc; monthlyStep monthlyData t)
        (Some []) txs.

(** Body of the [forEach] of [calculateAnnualData]; the balance is
    assigned once, after the loop. *)
Definition annualStep (a : AnnualData) (t : Transaction) : AnnualData :=
  if isIncome t
  then {| annual_income := num_add (annual_income a) (amount t);
          annual_expenses := annual_expenses a;
          annual_balance := annual_balance a |}
  else {| annual_income := annual_income a;
          annual_expenses := num_add (annual_expenses a) (amount t);
          annual_balance := annual_balance a |}.

Definition calculateAnnualData (txs : list Transaction) : AnnualData :=
  let a := foldl annualStep
             {| annual_income := num_zero; annual_expenses := num_zero;
                annual_balance := num_zero |} txs in
  {| annual_income := annual_income a; annual_expenses := annual_expenses a;
     annual_balance := num_sub (annual_income a) (annual_expenses a) |}.

(** A value of [categories]: a number, or the string that [+] makes when
    its left operand is a member of [Object.prototype] or such a string.
    The text of the string, which starts with the engine's rendering of the
    member, is not modelled; it is never empty. *)
Inductive CategoryValue : Type :=
| CNumber (n : num)
| CText.

(** Body of the [forEach] of [expensesByCategory]:
    [categories[c] = (categories[c] || 0) + amount].  A missing property
    reads as [undefined], which is falsy; an inherited member and a
    string are truthy, and adding a number to them concatenates.  The
    assignment makes an own property, except for [__proto__], whose
    inherited setter ignores a value that is no object. *)
Definition categoryStep (categories : Obj CategoryValue) (t : Transaction)
  : Obj CategoryValue :=
  if isExpense t
  then
    let c := category t in
    let sum :=
      match obj_read c categories with
      | Own (CNumber v) => CNumber (num_add (num_or_zero v) (amount t))
      | Own CText => CText
      | Inherited => CText
      | Undefined => CNumber (num_add num_zero (amount t))
      end in
    if String.eqb c "__proto__" then categories else obj_set c sum categories
  else categories.

(** [Object.entries(categories).map(([name, value]) => ({ name, value }))]:
    the list of pairs is that list of [{name, value}] records. *)
Definition expensesByCategory (txs : list Transaction)
  : list (string * CategoryValue) :=
  foldl categoryStep [] txs.
End Aggregation.
Arguments Transaction num : clear implicits.
Arguments MonthlyBucket num : clear implicits.
Arguments MonthlyData num : clear implicits.
Arguments AnnualData num : clear implicits.
Arguments CategoryValue num : clear implicits.

(** The example of the specification, on JavaScript numbers. *)
Definition tx (ty : string) (a : float) (c d : string) : Transaction float :=
  {| _id := EmptyString; description := EmptyString; amount := a; type := ty; category := c;
     date := d |}.

Definition example_txs : list (Transaction float) :=
  [ tx "income" 1000 "salary" "2024-01-05";
    tx "expense" 200 "food" "2024-01-10";
    tx "expense" 50 "food" "2024-02-01" ].

(** ** Sums and groups used to state the properties *)
Section Sums.
Context {num : Type} `{Number num}.
Implicit Types (t : Transaction num) (txs : list (Transaction num)).

(** The sum of a list of numbers, added from [0] in list order, as a
    loop [s += x] computes it. *)
Definition total (xs : list num) : num := foldl num_add num_zero xs.

(** Amounts of the income-type transactions, of the expense-type ones,
    and of all those that are not income-type. *)
Definition incomeAmounts txs : list num :=
  amount <$> filter (fun t => type t = "income") txs.
Definition expenseAmounts txs : list num :=
  amount <$> filter (fun t => type t = "expense") txs.
Definition otherAmounts txs : list num :=
  amount <$> filter (fun t => type t <> "income") txs.

(** The declared type of [type]: ["income" | "expense"]. *)
Definition typed t : Prop := type t = "income" \/ type t = "expense".

(** The transactions whose date starts with the year-month [k]: the
    first seven characters of the date are [k]. *)
Definition inMonth (k : string) txs : list (Transaction num) :=
  filter (fun t => String.substring 0 7 (date t) = k) txs.

(** The bucket that a non-empty group [g] of transactions determines. *)
Definition groupBucket (g : list (Transaction num)) : MonthlyBucket num :=
  {| income := total (incomeAmounts g);
     expenses := total (otherAmounts g);
     balance := num_sub (total (incomeAmounts g)) (total (otherAmounts g));
     transactions := g |}.

(** The bucket of month [k]: none when no transaction falls in it. *)
Definition monthBucket (k : string) txs : option (MonthlyBucket num) :=
  match inMonth k txs with
  | [] => None
  | g => Some (groupBucket g)
  end.

(** The object after a step of the monthly loop that does not throw:
    the bucket of the transaction's month, or else the empty bucket, with
    the transaction added. *)
Definition monthlyAssign (md : MonthlyData num) t : MonthlyData num :=
  obj_set (String.substring 0 7 (date t))
    (addToBucket t
       (default emptyBucket (obj_get (String.substring 0 7 (date t)) md))) md.


(** Accumulation of one category's amounts as [expensesByCategory] does
    it: the first amount is added to [0], every later one to
    [acc || 0]. *)
Definition categoryTotal (xs : list num) : option num :=
  match xs with
  | [] => None
  | x :: xs' =>
      Some (foldl (fun acc a => num_add (num_or_zero acc) a)
                  (num_add num_zero x) xs')
  end.

(** Amounts of the expense-type transactions labelled [c]. *)
Definition categoryAmounts (c : string) txs : list num :=
  amount <$> filter (fun t => type t = "expense" /\ category t = c) txs.

(** No date starts with the seven characters [valueOf], the one name of
    a member of [Object.prototype] that a year-month key can be. *)
Definition plainDates txs : Prop :=
  Forall (fun t => String.substring 0 7 (date t) <> "valueOf") txs.

(** No expense-type transaction is labelled with the name of a member of
    [Object.prototype]. *)
Definition plainLabels txs : Prop :=
  Forall (fun t => type t = "expense" -> category t ∉ objectPrototypeNames) txs.

(** The numbers among category values, in their order. *)
Definition categoryNumbers (vs : list (CategoryValue num)) : list num :=
  omap (fun v => match v with CNumber n => Some n | CText => None end) vs.
End Sums.

(** ** Whole amounts

    The binary64 number of the integer [z], as the library specifies the
    conversion of an integer ([of_uint63_spec]). *)
Definition SFofZ (z : Z) : spec_float := binary_normalize prec emax z 0 false.

(** [x] is the binary64 number of the integer [z]. *)
Definition integer_valued (x : float) (z : Z) : Prop := Prim2SF x = SFofZ z.

(** The canonical binary64 form of a positive integer below [2^53]: the
    mantissa is shifted to 53 digits. *)
Definition canonical (s : bool) (n : positive) : spec_float :=
  S754_finite s (Nat.iter (Z.to_nat (53 - Zpos (digits2_pos n))) xO n)
              (Zpos (digits2_pos n) - 53).

(** The integer part of a finite number, [0] for the others. *)
Definition toInteger (x : float) : Z :=
  match Prim2SF x with
  | S754_finite s m e => cond_Zopp s (Z.shiftl (Zpos m) e)
  | _ => 0%Z
  end.

(** [x] is a whole number and not negative: it is the binary64 number of
    its integer part, which is not negative. *)
Definition isWhole (x : float) : Prop :=
  Prim2SF x = SFofZ (toInteger x) /\ (0 <= toInteger x)%Z.

Definition sumZ (zs : list Z) : Z := foldr Z.add 0%Z zs.

(** The numbers are whole, not negative, and add up to less than [2^53]
    (to at most [Number.MAX_SAFE_INTEGER]). *)
Definition wholeNumbers (xs : list float) : Prop :=
  Forall isWhole xs /\ (sumZ (toInteger <$> xs) < 2 ^ 53)%Z.

Definition wholeAmounts (txs : list (Transaction float)) : Prop :=
  wholeNumbers (amount <$> txs).

(** The integer of a transaction's amount. *)
Definition wholeAmount (t : Transaction float) : Z := toInteger (amount t).

(** ** Sample inputs *)

(** Lists of transactions on JavaScript numbers, with amounts that have
    no exact binary representation. *)
Definition rounding_txs : list (Transaction float) :=
  [ tx "income" 0.3 "salary" "2024-01-05";
    tx "income" 0.1 "salary" "2024-02-05";
    tx "income" 0.2 "bonus" "2024-01-09";
    tx "expense" 0.3 "food" "2024-02-10" ].





Definition refund_tx : Transaction float :=
  tx "refund" 5 "misc" "2024-02-03".

(** A transaction whose date starts with the name of a member of
    [Object.prototype], and expenses labelled with such names. *)
Definition valueOf_tx : Transaction float :=
  tx "refund" 5 "misc" "valueOf".

Definition constructor_tx : Transaction float :=
  tx "expense" 5 "constructor" "2024-02-03".

Definition proto_tx : Transaction float :=
  tx "expense" 5 "__proto__" "2024-02-03".

(** Transactions with ids. *)
Definition tx_id (id ty : string) (a : float) (c d : string)
  : Transaction float :=
  {| _id := id; description := EmptyString; amount := a; type := ty;
     category := c; date := d |}.

Definition ledger : list (Transaction float) :=
  [ tx_id "a1" "income" 1000 "salary" "2024-01-05";
    tx_id "a2" "expense" 200 "food" "2024-01-10";
    tx_id "a3" "expense" 50 "food" "2024-02-01" ].

(** ** Chart series *)

(** What [monthlyChartData] asks of the JavaScript host. *)
Record DateHost : Type := {
  (** [new Date(month).toLocaleString("default", { month: "short",
      year: "numeric" })]: the label of a year-month key in the default
      locale and the local time zone. *)
  monthLabel : string -> string;
  (** [new Date(name).getTime()], in milliseconds; [None] stands for the
      [NaN] of an invalid date.  The string is not in the ISO format, so
      how it is read is left to the implementation. *)
  labelTime : string -> option Z
}.

Section Sort.
Context {A : Type}.

(** [gt a b] says that the comparator returns a positive number on
    [(a, b)]. *)
Variable gt : A -> A -> bool.

Fixpoint insertSorted (x : A) (l : list A) : list A :=
  match l with
  | [] => [x]
  | y :: l' => if gt x y then y :: insertSorted x l' else x :: y :: l'
  end.

(** [Array.prototype.sort] is a stable sort, and all stable sorts agree
    when the comparator is a consistent ordering; this is the insertion
    sort, which moves an element only past those it compares greater
    than. *)
Definition arraySort (l : list A) : list A := foldr insertSorted [] l.
End Sort.

Section Chart.
Context {num : Type}.

Record ChartEntry : Type := {
  name : string;
  chart_income : num;
  chart_expenses : num;
  chart_balance : num
}.

Variable host : DateHost.

(** The callback of [map]. *)
Definition chartEntry (entry : string * MonthlyBucket num) : ChartEntry :=
  {| name := monthLabel host entry.1;
     chart_income := income entry.2;
     chart_expenses := expenses entry.2;
     chart_balance := balance entry.2 |}.

(** The comparator, [new Date(a.name).getTime() - new Date(b.name)
    .getTime()]: [None] is [NaN].  Times are integers below [2^53], so
    their difference as a number has the sign of their difference as
    integers. *)
Definition chartCompare (a b : ChartEntry) : option Z :=
  match labelTime host (name a), labelTime host (name b) with
  | Some ta, Some tb => Some (ta - tb)%Z
  | _, _ => None
  end.

(** A positive result; [sort] reads [NaN] as [0]. *)
Definition sortsAfter (a b : ChartEntry) : bool :=
  match chartCompare a b with
  | Some d => (0 <? d)%Z
  | None => false
  end.

Definition monthlyChartData (monthlyData : MonthlyData num)
  : list ChartEntry :=
  arraySort sortsAfter (chartEntry <$> monthlyData).

(** The time the host reads from an entry's label, [0] when it reads
    none. *)
Definition entryTime (e : ChartEntry) : Z :=
  default 0%Z (labelTime host (name e)).
End Chart.
Arguments ChartEntry num : clear implicits.

(** *** Two hosts *)

(** Days from 1970-01-01 to the given day of the civil calendar. *)
Definition daysFromCivil (y m d : Z) : Z :=
  (let y' := if m <=? 2 then y - 1 else y in
   let era := y' / 400 in
   let yoe := y' - era * 400 in
   let mp := (m + 9) mod 12 in
   let doy := (153 * mp + 2) / 5 + d - 1 in
   let doe := yoe * 365 + yoe / 4 - yoe / 100 + doy in
   era * 146097 + doe - 719468)%Z.

Definition englishMonths : list string :=
  [ "Jan"; "Feb"; "Mar"; "Apr"; "May"; "Jun";
    "Jul"; "Aug"; "Sep"; "Oct"; "Nov"; "Dec" ].

Fixpoint indexOf (s : string) (l : list string) : option nat :=
  match l with
  | [] => None
  | x :: l' => if String.eqb s x then Some 0%nat else S <$> indexOf s l'
  end.

(** An English host in the UTC time zone, on keys [YYYY-MM]: the label
    of ["2024-01"] is ["Jan 2024"], which is read back as the first
    instant of January 2024. *)
Definition english_host : DateHost :=
  {| monthLabel := fun k =>
       match digitsToZ (String.substring 0 4 k),
             digitsToZ (String.substring 5 2 k) with
       | Some _, Some m =>
           match englishMonths !! Z.to_nat (m - 1) with
           | Some mon => if (1 <=? m)%Z
                         then mon +:+ " " +:+ String.substring 0 4 k
                         else "Invalid Date"
           | None => "Invalid Date"
           end
       | _, _ => "Invalid Date"
       end;
     labelTime := fun s =>
       match indexOf (String.substring 0 3 s) englishMonths,
             digitsToZ (String.substring 4 4 s) with
       | Some i, Some y =>
           Some (86400000 * daysFromCivil y (Z.of_nat i + 1) 1)%Z
       | _, _ => None
       end |}.

(** A Chinese host: the label of ["2024-02"] is ["2024年2月"], which the
    date parsers of the JavaScript engines do not read. *)
Definition chinese_host : DateHost :=
  {| monthLabel := fun k =>
       String.substring 0 4 k +:+ "年" +:+
       (if String.eqb (String.substring 5 1 k) "0"
        then String.substring 6 1 k else String.substring 5 2 k) +:+ "月";
     labelTime := fun _ => None |}.

(** Two transactions as the server lists them, the newer first. *)
Definition newest_first_txs : list (Transaction float) :=
  [ tx "expense" 50 "food" "2024-02-01";
    tx "income" 1000 "salary" "2024-01-05" ].

Definition oldest_first_txs : list (Transaction float) :=
  [ tx "income" 1000 "salary" "2024-01-05";
    tx "expense" 50 "food" "2024-02-01" ].

(** ** The transaction service

    The route handlers call Mongoose on the [Transaction] model, whose
    schema declares [description], [type] and [category] as [String],
    [amount] as [Number] and [date] as [Date], with no validator, no
    [required] flag and no [enum].  What Mongoose does with a value is its
    cast to the declared type; the casts of the scalar JSON values are
    written out below.  What belongs to the JavaScript host, to Mongoose's
    handling of arrays and objects, and to MongoDB's update language is
    kept as the fields of a [Host], so that every property holds whatever
    those do. *)

(** A parsed JSON value. *)
Inductive json : Type :=
| JNull
| JBool (b : bool)
| JNum (n : float)
| JStr (s : string)
| JArr (items : list json)
| JObj (members : list (string * json)).

(** A request body: a parsed JSON object, each key once. *)
Abbreviation Body := (Obj json).

Definition isNaN (x : float) : bool := negb (PrimFloat.eqb x x).

(** A stored document of the [transactions] collection.  [doc_id] is the
    hexadecimal text of the [_id]; the empty string stands for an [_id] of
    [null], which a create request can ask for.  A path that is [null] or
    was never set is [None]. *)
Record Document : Type := {
  doc_id : string;
  doc_description : option string;
  doc_amount : option float;
  doc_type : option string;
  doc_category : option string;
  doc_date : option Z
}.

(** The collection, by [_id]. *)
Abbreviation Store := (gmap string Document).

(** What a handler can throw.  No handler catches anything, so each of
    these leaves the handler as a rejected promise, which the framework
    answers with status 500. *)
Inductive Failure : Type :=
| ValidationError   (* [save()]: some path did not cast *)
| CastError         (* a query: the id or the update did not cast *)
| ImmutableField    (* an update that would change [_id] *)
| DuplicateKey      (* an insert under an [_id] already present *)
| UpdateRefused.    (* the server refuses an update with operators *)

Inductive Payload : Type :=
| PDocument (d : Document)
| PNull
| PMessage (m : string).

Record Response : Type := { status : nat; payload : Payload }.

(** [NextResponse.json(x)]: status 200. *)
Definition json_response (p : Payload) : Response :=
  {| status := 200; payload := p |}.

Inductive Result : Type :=
| Responded (r : Response)
| Thrown (e : Failure).

(** The schema paths of a body after casting.  For each path the outer
    [option] is [None] when the body does not mention it, and [Some None]
    is [null]; paths that the schema does not declare are dropped (strict
    mode). *)
Record Fields : Type := {
  f_id : option (option string);
  f_description : option (option string);
  f_amount : option (option float);
  f_type : option (option string);
  f_category : option (option string);
  f_date : option (option Z)
}.

Record Host : Type := {
  (** [Number(s)] on a string; [NaN] when [s] is not a numeric literal. *)
  toNumber : string -> float;
  (** [String(n)] on a number. *)
  numberToString : float -> string;
  (** Mongoose's cast to [Date], in milliseconds since the epoch: [None]
      when the cast fails, [Some None] for [null]. *)
  castDate : json -> option (option Z);
  (** Mongoose's casts of an array or an object to [String] and to
      [Number], and of a value that is neither [null] nor a string to
      [ObjectId]: they go through the value's [toString], [valueOf] and
      [_id]. *)
  castStringOf : json -> option (option string);
  castNumberOf : json -> option (option float);
  castIdOf : json -> option (option string);
  (** [new Transaction(body)] for a body with a key that is no path of
      the schema. *)
  castSpecial : Body -> option Fields;
  (** An update with such a key (an update operator as [$inc], a dotted
      path): whether Mongoose's cast accepts it, and what MongoDB makes of
      the matched document, or the failure. *)
  castUpdate : Body -> bool;
  runUpdate : Body -> Document -> Document + Failure
}.

(** *** Object ids *)

Definition isHexDigit (c : ascii) : bool :=
  let n := nat_of_ascii c in
  ((48 <=? n) && (n <=? 57) || (97 <=? n) && (n <=? 102) ||
   (65 <=? n) && (n <=? 70))%nat.

Definition lowerHex (c : ascii) : ascii :=
  let n := nat_of_ascii c in
  if ((65 <=? n) && (n <=? 70))%nat then ascii_of_nat (n + 32) else c.

Fixpoint string_forallb (p : ascii -> bool) (s : string) : bool :=
  match s with
  | EmptyString => true
  | String c s' => p c && string_forallb p s'
  end.

Fixpoint string_map (f : ascii -> ascii) (s : string) : string :=
  match s with
  | EmptyString => EmptyString
  | String c s' => String (f c) (string_map f s')
  end.

(** The cast of a string to [ObjectId]: 24 hexadecimal digits, read
    without regard to case.  (Mongoose before version 7 also reads any
    string of 12 characters.)  [None] is the failed cast. *)
Definition castObjectId (s : string) : option string :=
  if (String.length s =? 24)%nat && string_forallb isHexDigit s
  then Some (string_map lowerHex s) else None.

(** The paths of the schema: the five declared ones, [_id] and the
    version key [__v], which Mongoose adds. *)
Definition schemaPaths : list string :=
  [ "_id"; "description"; "amount"; "type"; "category"; "date"; "__v" ].

(** A body all of whose keys are paths of the schema, as the bodies are
    that the component sends.  What Mongoose makes of other keys (update
    operators as [$inc], dotted paths, virtuals as [id]) is left to the
    [Host]. *)
Definition plainBody (body : Body) : bool :=
  forallb (fun kv => existsb (String.eqb kv.1) schemaPaths) body.

(** *** Casts of the schema paths *)
Section Casts.
Variable host : Host.

(** Mongoose [castString]: strings as they are, numbers and booleans
    printed. *)
Definition castString (v : json) : option (option string) :=
  match v with
  | JNull => Some None
  | JStr s => Some (Some s)
  | JNum n => Some (Some (numberToString host n))
  | JBool b => Some (Some (if b then "true" else "false"))
  | JArr _ | JObj _ => castStringOf host v
  end.

(** Mongoose [castNumber]: the empty string is [null], other strings
    and booleans go through [Number(...)], and [NaN] fails. *)
Definition castNumber (v : json) : option (option float) :=
  match v with
  | JNull => Some None
  | JStr EmptyString => Some None
  | JStr s => let n := toNumber host s in
              if isNaN n then None else Some (Some n)
  | JBool b => Some (Some (if b then 1%float else 0%float))
  | JNum n => if isNaN n then None else Some (Some n)
  | JArr _ | JObj _ => castNumberOf host v
  end.

(** The cast of a body's [_id]: [null] stays [null], a string must be an
    object id. *)
Definition castId (v : json) : option (option string) :=
  match v with
  | JNull => Some None
  | JStr s => match castObjectId s with
              | Some oid => Some (Some oid)
              | None => None
              end
  | _ => castIdOf host v
  end.

(** Cast of one path: [None] when the cast fails. *)
Definition castPath {A} (cast : json -> option (option A)) (p : string)
    (body : Body) : option (option (option A)) :=
  match obj_get p body with
  | None => Some None
  | Some v => match cast v with
              | Some a => Some (Some a)
              | None => None
              end
  end.

(** All paths of a body whose keys are paths of the schema; [None] when
    some path fails to cast.  The version key is cast as a number; the
    documents below do not show it. *)
Definition castFields (body : Body) : option Fields :=
  i ← castPath castId "_id" body;
  d ← castPath castString "description" body;
  a ← castPath castNumber "amount" body;
  t ← castPath castString "type" body;
  c ← castPath castString "category" body;
  dt ← castPath (castDate host) "date" body;
  _ ← castPath castNumber "__v" body;
  Some {| f_id := i; f_description := d; f_amount := a; f_type := t;
          f_category := c; f_date := dt |}.

(** The paths that [new Transaction(body)] sets. *)
Definition castBody (body : Body) : option Fields :=
  if plainBody body then castFields body else castSpecial host body.

(** [new Transaction(body)]: the document of the cast paths, under the
    body's [_id], which may be [null], or else under the fresh id [newId]
    that the driver generates. *)
Definition newDocument (newId : string) (f : Fields) : Document :=
  {| doc_id := match f_id f with
               | None => newId
               | Some None => EmptyString
               | Some (Some oid) => oid
               end;
     doc_description := mjoin (f_description f);
     doc_amount := mjoin (f_amount f);
     doc_type := mjoin (f_type f);
     doc_category := mjoin (f_category f);
     doc_date := mjoin (f_date f) |}.

(** The update [{ $set: body }] on a document: the mentioned paths are
    replaced, the others are kept. *)
Definition applyUpdate (f : Fields) (d : Document) : Document :=
  {| doc_id := doc_id d;
     doc_description := default (doc_description d) (f_description f);
     doc_amount := default (doc_amount d) (f_amount f);
     doc_type := default (doc_type d) (f_type f);
     doc_category := default (doc_category d) (f_category f);
     doc_date := default (doc_date d) (f_date f) |}.

(** *** Route handlers *)

(** [POST]: [new Transaction(body)], [save()], respond with the
    document. *)
Definition POST (newId : string) (body : Body) (st : Store)
  : Store * Result :=
  match castBody body with
  | None => (st, Thrown ValidationError)
  | Some f =>
      let d := newDocument newId f in
      match st !! doc_id d with
      | Some _ => (st, Thrown DuplicateKey)
      | None => (<[doc_id d := d]> st, Responded (json_response (PDocument d)))
      end
  end.

(** The write of [findByIdAndUpdate] on the document [d] matched under
    the id [oid], when the body's keys are paths of the schema: the body
    is a [$set].  An
    [_id] in it must be the document's own: the server refuses to change
    it, also to [null]. *)
Definition setFields (oid : string) (f : Fields) (d : Document)
  : Document + Failure :=
  match f_id f with
  | None => inl (applyUpdate f d)
  | Some (Some oid') =>
      if decide (oid' = oid) then inl (applyUpdate f d)
      else inr ImmutableField
  | Some None => inr ImmutableField
  end.

(** [PUT]: [findByIdAndUpdate(id, body, { new: true })], respond with
    what it returns: the document after the update, or [null] when no
    document has the id.  The id and the update are cast before the query
    is sent. *)
Definition PUT (id : string) (body : Body) (st : Store) : Store * Result :=
  match castObjectId id with
  | None => (st, Thrown CastError)
  | Some oid =>
      let update : option (Document -> Document + Failure) :=
        if plainBody body
        then setFields oid <$> castFields body
        else if castUpdate host body then Some (runUpdate host body)
             else None in
      match update with
      | None => (st, Thrown CastError)
      | Some write =>
          match st !! oid with
          | None => (st, Responded (json_response PNull))
          | Some d =>
              match write d with
              | inl d' =>
                  if decide (doc_id d' = doc_id d)
                  then (<[oid := d']> st,
                        Responded (json_response (PDocument d')))
                  else (st, Thrown ImmutableField)
              | inr e => (st, Thrown e)
              end
          end
      end
  end.

(** [DELETE]: [findByIdAndDelete(id)], respond with the message. *)
Definition DELETE (id : string) (st : Store) : Store * Result :=
  match castObjectId id with
  | None => (st, Thrown CastError)
  | Some oid =>
      (delete oid st,
       Responded (json_response (PMessage "Transaction deleted successfully")))
  end.
End Casts.

(** *** Sample requests *)

(** The sample requests below hold strings where the schema wants
    strings, numbers where it wants numbers, no date and paths of the
    schema only, so that nothing of the host is called on them, except [Number("abc")],
    which is [NaN] on every host.  [idle_host] fills the host argument. *)
Definition idle_host : Host :=
  {| toNumber := fun _ => (0 / 0)%float;
     numberToString := fun _ => EmptyString;
     castDate := fun _ => None;
     castStringOf := fun _ => None;
     castNumberOf := fun _ => None;
     castIdOf := fun _ => None;
     castSpecial := fun _ => None;
     castUpdate := fun _ => false;
     runUpdate := fun _ d => inl d |}.

Definition sample_id : string := "65a1b2c3d4e5f60718293a4b".

Definition transfer_body : Body :=
  [ ("description", JStr "gift"); ("amount", JNum 12);
    ("type", JStr "transfer"); ("category", JStr "misc") ].

Definition transfer_document : Document :=
  {| doc_id := sample_id; doc_description := Some "gift";
     doc_amount := Some 12%float; doc_type := Some "transfer";
     doc_category := Some "misc"; doc_date := None |}.

Definition bad_amount_body : Body :=
  [ ("description", JStr "gift"); ("amount", JStr "abc");
    ("type", JStr "expense"); ("category", JStr "misc") ].

Definition edit_body : Body :=
  [ ("_id", JStr sample_id); ("description", JStr "gift");
    ("amount", JNum 15); ("type", JStr "expense");
    ("category", JStr "misc"); ("__v", JNum 0) ].


Definition edited_document : Document :=
  {| doc_id := sample_id; doc_description := Some "gift";
     doc_amount := Some 15%float; doc_type := Some "expense";
     doc_category := Some "misc"; doc_date := None |}.

Definition sample_store : Store := {[ sample_id := transfer_document ]}.

Definition other_id : string := "65a1b2c3d4e5f60718293a4c".

Definition undated_document : Document :=
  {| doc_id := other_id; doc_description := Some "cash";
     doc_amount := Some 7%float; doc_type := Some "income";
     doc_category := None; doc_date := None |}.

Definition third_id : string := "65a1b2c3d4e5f60718293a4d".

(** A store of two records. *)
Definition two_store : Store :=
  {[ sample_id := transfer_document; other_id := undated_document ]}.



(** ** Local state of the component

    After each request the component reconciles its own list of
    transactions with the answer of the server, instead of fetching the list
    again.  The functions below are the state updates of [addTransaction],
    [editTransaction] and [deleteTransaction], with the parsed answer
    [savedTransaction] as an argument, and [toggleMonthExpansion]. *)
Section ClientState.
Context {num : Type}.

(** [setTransactions([savedTransaction, ...transactions])] *)
Definition addTransaction (savedTransaction : Transaction num)
    (transactions : list (Transaction num)) : list (Transaction num) :=
  savedTransaction :: transactions.

(** [setTransactions(transactions.map((t) => t._id === savedTransaction._id
    ? savedTransaction : t))].  The server answers [null] for an id that it
    does not hold; the callback then reads [null._id], which throws, unless
    the list is empty and the callback is never called.  [None] is that
    throw: the state is not set. *)
Definition editTransaction (savedTransaction : option (Transaction num))
    (transactions : list (Transaction num)) : option (list (Transaction num)) :=
  match savedTransaction, transactions with
  | Some saved, _ =>
      Some (map (fun t => if String.eqb (_id t) (_id saved) then saved else t)
                transactions)
  | None, [] => Some []
  | None, _ :: _ => None
  end.

(** [setTransactions(transactions.filter((t) => t._id !== id))] *)
Definition deleteTransaction (id : string)
    (transactions : list (Transaction num)) : list (Transaction num) :=
  filter (fun t => _id t <> id) transactions.
End ClientState.

(** [prev.includes(month) ? prev.filter((m) => m !== month)
    : [...prev, month]] *)
Definition toggleMonthExpansion (month : string) (prev : list string)
  : list string :=
  if decide (month ∈ prev)
  then filter (fun m => m <> month) prev
  else prev ++ [month].

Definition COLORS : list string :=
  [ "#0088FE"; "#00C49F"; "#FFBB28"; "#FF8042"; "#8884D8"; "#82CA9D" ].

(** The fill of the pie cell of the category at [index]:
    [COLORS[index % COLORS.length]]; [None] would be [undefined]. *)
Definition cellColor (index : nat) : option string :=
  COLORS !! (index mod length COLORS)%nat.

(** The distinct elements of a list, each at the place where it occurs
    first. *)
Definition firstOccurrences (l : list string) : list string :=
  foldl (fun seen k => if decide (k ∈ seen) then seen else seen ++ [k]) [] l.

(** ** Listing the collection *)

(** Order of the [date] path in a sort: [null] sorts below every date. *)
Definition dateBefore (a b : option Z) : bool :=
  match a, b with
  | None, Some _ => true
  | Some x, Some y => (x <? y)%Z
  | _, _ => false
  end.

(** [Transaction.find({}).sort({ date: -1 })]: all documents, the latest
    date first and those without a date last.  MongoDB does not fix the
    order of documents with equal dates; here they keep the order in which
    the map lists them. *)
Definition findAllByDateDescending (st : Store) : list Document :=
  arraySort (fun a b => dateBefore (doc_date a) (doc_date b))
            ((map_to_list st).*2).

(** [GET]: the status and the array of the response. *)
Definition GET (st : Store) : nat * list Document :=
  (200%nat, findAllByDateDescending st).

(** The store holds every document under its own [_id]. *)
Definition keyed (st : Store) : Prop :=
  forall k d, st !! k = Some d -> doc_id d = k.

Definition dated_document (id : string) (t : Z) : Document :=
  {| doc_id := id; doc_description := None; doc_amount := None;
     doc_type := None; doc_category := None; doc_date := Some t |}.

Definition amount_null_body : Body := [ ("amount", JNull) ].

Definition upper_sample_id : string := "65A1B2C3D4E5F60718293A4B".

(** * Binary64 arithmetic on whole numbers

    Addition and subtraction of binary64 numbers are exact on integers
    as long as the operands and the result are below [2^53] in magnitude.
    This is proved from the library's specification of the primitive
    operations ([add_spec], [sub_spec]) by following [SFadd] and
    [binary_round] on canonical mantissas. *)
Section Binary64.
Local Open Scope Z_scope.

Lemma iter_pos_nat {A} (f : A -> A) (n : positive) (x : A) :
  SpecFloat.iter_pos f n x = Nat.iter (Pos.to_nat n) f x.
Proof.
  revert x. induction n as [n IH|n IH|]; intros x; cbn [SpecFloat.iter_pos].
  - rewrite !IH, Pos2Nat.inj_xI.
    replace (S (2 * Pos.to_nat n))%nat with (Pos.to_nat n + S (Pos.to_nat n))%nat by lia.
    rewrite Nat.iter_add, Nat.iter_succ_r. reflexivity.
  - rewrite !IH, Pos2Nat.inj_xO.
    replace (2 * Pos.to_nat n)%nat with (Pos.to_nat n + Pos.to_nat n)%nat by lia.
    rewrite Nat.iter_add. reflexivity.
  - reflexivity.
Qed.

Lemma Pos_iter_nat {A} (f : A -> A) (n : positive) (x : A) :
  Pos.iter f x n = Nat.iter (Pos.to_nat n) f x.
Proof.
  revert x. induction n as [n IH|n IH|]; intros x; cbn [Pos.iter].
  - rewrite !IH, Pos2Nat.inj_xI.
    replace (S (2 * Pos.to_nat n))%nat with (S (Pos.to_nat n) + Pos.to_nat n)%nat by lia.
    rewrite Nat.iter_add. reflexivity.
  - rewrite !IH, Pos2Nat.inj_xO.
    replace (2 * Pos.to_nat n)%nat with (Pos.to_nat n + Pos.to_nat n)%nat by lia.
    rewrite Nat.iter_add. reflexivity.
  - reflexivity.
Qed.

Lemma shr_1_iter (n : nat) (p : positive) :
  Nat.iter n shr_1 (Build_shr_record (Zpos (Nat.iter n xO p)) false false)
  = Build_shr_record (Zpos p) false false.
Proof.
  induction n as [|n IH]; [reflexivity|].
  rewrite Nat.iter_succ_r. simpl. exact IH.
Qed.

Lemma Zpos_iter_xO (n : nat) (p : positive) :
  Zpos (Nat.iter n xO p) = Zpos p * 2 ^ Z.of_nat n.
Proof.
  induction n as [|n IH]; [simpl; lia|].
  rewrite Nat2Z.inj_succ, Z.pow_succ_r by lia.
  simpl. rewrite Pos2Z.inj_xO, IH. lia.
Qed.

Lemma digits2_pos_iter_xO (n : nat) (p : positive) :
  Zpos (digits2_pos (Nat.iter n xO p)) = Zpos (digits2_pos p) + Z.of_nat n.
Proof.
  induction n as [|n IH]; [simpl; lia|].
  rewrite Nat2Z.inj_succ. simpl. rewrite Pos2Z.inj_succ, IH. lia.
Qed.

Lemma digits2_pos_bounds (p : positive) :
  2 ^ (Zpos (digits2_pos p) - 1) <= Zpos p < 2 ^ Zpos (digits2_pos p).
Proof.
  induction p as [p IH|p IH|]; simpl digits2_pos.
  - rewrite Pos2Z.inj_succ.
    replace (Z.succ (Zpos (digits2_pos p)) - 1) with (Z.succ (Zpos (digits2_pos p) - 1)) by lia.
    rewrite !Z.pow_succ_r by lia. lia.
  - rewrite Pos2Z.inj_succ.
    replace (Z.succ (Zpos (digits2_pos p)) - 1) with (Z.succ (Zpos (digits2_pos p) - 1)) by lia.
    rewrite !Z.pow_succ_r by lia. lia.
  - simpl. lia.
Qed.

Lemma digits2_pos_le (p : positive) (n : Z) :
  Zpos p < 2 ^ n -> Zpos (digits2_pos p) <= n.
Proof.
  intros H. destruct (Z.le_gt_cases (Zpos (digits2_pos p)) n) as [|Hgt]; [done|].
  pose proof (digits2_pos_bounds p) as [Hlo _].
  assert (0 <= n) by (destruct (Z.le_gt_cases 0 n); [done|]; rewrite Z.pow_neg_r in H; lia).
  assert (2 ^ n <= 2 ^ (Zpos (digits2_pos p) - 1)) by (apply Z.pow_le_mono_r; lia).
  lia.
Qed.

Lemma fexp_eq (e : Z) : fexp prec emax e = Z.max (e - 53) (-1074).
Proof. reflexivity. Qed.

Lemma shr_exact (j : nat) (p : positive) (e : Z) :
  shr (Build_shr_record (Zpos (Nat.iter j xO p)) false false) e (Z.of_nat j)
  = (Build_shr_record (Zpos p) false false, e + Z.of_nat j).
Proof.
  destruct j as [|j].
  - simpl. f_equal. lia.
  - change (Z.of_nat (S j)) with (Zpos (Pos.of_succ_nat j)).
    cbn [shr]. rewrite iter_pos_nat, SuccNat2Pos.id_succ, shr_1_iter.
    reflexivity.
Qed.

Lemma binary_round_aux_exact (s : bool) (p : positive) (j : nat) (e : Z) :
  Zpos (digits2_pos p) = 53 -> -1074 <= e <= 971 ->
  binary_round_aux prec emax s (Zpos (Nat.iter j xO p)) (e - Z.of_nat j) loc_Exact
  = S754_finite s p e.
Proof.
  intros Hd He. unfold binary_round_aux, shr_fexp.
  cbn [Zdigits2 shr_record_of_loc]. rewrite digits2_pos_iter_xO, Hd, fexp_eq.
  replace (Z.max (53 + Z.of_nat j + (e - Z.of_nat j) - 53) (-1074) - (e - Z.of_nat j))
    with (Z.of_nat j) by lia.
  rewrite shr_exact. cbn [shr_m loc_of_shr_record round_nearest_even Zdigits2 shr_record_of_loc].
  rewrite Hd, fexp_eq.
  replace (Z.max (53 + (e - Z.of_nat j + Z.of_nat j) - 53) (-1074) - (e - Z.of_nat j + Z.of_nat j))
    with 0 by lia.
  cbn [shr shr_m].
  replace (e - Z.of_nat j + Z.of_nat j) with e by lia.
  destruct (Z.leb_spec e (emax - prec)) as [|Hgt]; [done|].
  change (emax - prec) with 971 in Hgt. lia.
Qed.

Lemma shl_align_fst (m : positive) (ex ex' : Z) :
  ex' <= ex -> fst (shl_align m ex ex') = Nat.iter (Z.to_nat (ex - ex')) xO m.
Proof.
  intros H. unfold shl_align.
  destruct (ex' - ex) as [|q|q] eqn:E; try lia.
  - replace (ex - ex') with 0 by lia. reflexivity.
  - cbn [fst]. rewrite Pos_iter_nat. f_equal.
    replace (ex - ex') with (Zpos q) by lia. reflexivity.
Qed.

Lemma binary_round_exact (s : bool) (n : positive) (k : nat) :
  Zpos n < 2 ^ 53 ->
  binary_round prec emax s (Nat.iter k xO n) (- Z.of_nat k) = canonical s n.
Proof.
  intros Hn. pose proof (digits2_pos_le n 53 Hn) as Hd.
  pose proof (Pos2Z.is_pos (digits2_pos n)) as Hd0.
  unfold binary_round, canonical.
  rewrite digits2_pos_iter_xO, fexp_eq.
  replace (Z.max (Zpos (digits2_pos n) + Z.of_nat k + - Z.of_nat k - 53) (-1074))
    with (Zpos (digits2_pos n) - 53) by lia.
  set (d := Zpos (digits2_pos n)) in *.
  set (p := Nat.iter (Z.to_nat (53 - d)) xO n).
  assert (Hp : Zpos (digits2_pos p) = 53).
  { unfold p. rewrite digits2_pos_iter_xO. fold d. lia. }
  destruct (Z.le_gt_cases (53 - d) (Z.of_nat k)) as [Hk|Hk].
  - (* the mantissa is long enough: it is shifted right *)
    assert (Hal : shl_align (Nat.iter k xO n) (- Z.of_nat k) (d - 53)
                  = (Nat.iter k xO n, - Z.of_nat k)).
    { unfold shl_align. destruct (d - 53 - - Z.of_nat k) eqn:E; try reflexivity. lia. }
    rewrite Hal.
    assert (Hsplit : Nat.iter k xO n = Nat.iter (k - Z.to_nat (53 - d)) xO p).
    { unfold p. rewrite <- Nat.iter_add. f_equal. lia. }
    rewrite Hsplit.
    replace (- Z.of_nat k) with ((d - 53) - Z.of_nat (k - Z.to_nat (53 - d))) by lia.
    apply binary_round_aux_exact; [done|lia].
  - (* the mantissa is short: it is shifted left *)
    pose proof (shl_align_fst (Nat.iter k xO n) (- Z.of_nat k) (d - 53)) as Hf.
    destruct (shl_align (Nat.iter k xO n) (- Z.of_nat k) (d - 53)) as [mz ez] eqn:Hal.
    assert (ez = d - 53).
    { revert Hal. unfold shl_align.
      destruct (d - 53 - - Z.of_nat k) eqn:E; try lia. by intros [= _ <-]. }
    subst ez. cbn [fst] in Hf. rewrite Hf by lia.
    rewrite <- Nat.iter_add.
    replace (Z.to_nat (- Z.of_nat k - (d - 53)) + k)%nat with (Z.to_nat (53 - d)) by lia.
    fold p. change (Zpos p) with (Zpos (Nat.iter 0 xO p)).
    replace (d - 53) with ((d - 53) - Z.of_nat 0) at 1 by lia.
    apply binary_round_aux_exact; [done|lia].
Qed.

Lemma SFofZ_pos (n : positive) :
  Zpos n < 2 ^ 53 -> SFofZ (Zpos n) = canonical false n.
Proof. intros H. apply (binary_round_exact false n 0 H). Qed.

Lemma SFofZ_neg (n : positive) :
  Zpos n < 2 ^ 53 -> SFofZ (Zneg n) = canonical true n.
Proof. intros H. apply (binary_round_exact true n 0 H). Qed.

Lemma binary_normalize_shift (z : Z) (k : nat) :
  Z.abs z < 2 ^ 53 ->
  binary_normalize prec emax (z * 2 ^ Z.of_nat k) (- Z.of_nat k) false = SFofZ z.
Proof.
  intros Hz. destruct z as [|n|n].
  - reflexivity.
  - rewrite <- Zpos_iter_xO. cbn [binary_normalize].
    rewrite (binary_round_exact false n k) by done. symmetry. by apply SFofZ_pos.
  - replace (Zneg n * 2 ^ Z.of_nat k) with (- (Zpos n * 2 ^ Z.of_nat k)) by lia.
    rewrite <- Zpos_iter_xO.
    change (binary_round prec emax true (Nat.iter k xO n) (- Z.of_nat k) = SFofZ (Zneg n)).
    rewrite (binary_round_exact true n k) by done. symmetry. by apply SFofZ_neg.
Qed.

(** Binary64 addition and subtraction are exact on integers while the operands
    and the result stay below 2^53 in magnitude. *)
Lemma SFadd_canonical (sa sb : bool) (na nb : positive) :
  Zpos na < 2 ^ 53 -> Zpos nb < 2 ^ 53 ->
  Z.abs (cond_Zopp sa (Zpos na) + cond_Zopp sb (Zpos nb)) < 2 ^ 53 ->
  SFadd prec emax (canonical sa na) (canonical sb nb)
  = SFofZ (cond_Zopp sa (Zpos na) + cond_Zopp sb (Zpos nb)).
Proof.
  intros Ha Hb Hab.
  pose proof (digits2_pos_le na 53 Ha) as Hda.
  pose proof (digits2_pos_le nb 53 Hb) as Hdb.
  unfold canonical. cbn [SFadd].
  set (da := Zpos (digits2_pos na)) in *. set (db := Zpos (digits2_pos nb)) in *.
  set (ez := Z.min (da - 53) (db - 53)).
  rewrite !shl_align_fst by lia. rewrite <- !Nat.iter_add.
  replace (Z.to_nat (da - 53 - ez) + Z.to_nat (53 - da))%nat with (Z.to_nat (- ez)) by lia.
  replace (Z.to_nat (db - 53 - ez) + Z.to_nat (53 - db))%nat with (Z.to_nat (- ez)) by lia.
  replace ez with (- Z.of_nat (Z.to_nat (- ez))) at 3 by lia.
  rewrite <- binary_normalize_shift with (k := Z.to_nat (- ez)) by done.
  f_equal. rewrite !Zpos_iter_xO. destruct sa, sb; cbn [cond_Zopp]; lia.
Qed.

Lemma SFsub_canonical (sa sb : bool) (na nb : positive) :
  Zpos na < 2 ^ 53 -> Zpos nb < 2 ^ 53 ->
  Z.abs (cond_Zopp sa (Zpos na) - cond_Zopp sb (Zpos nb)) < 2 ^ 53 ->
  SFsub prec emax (canonical sa na) (canonical sb nb)
  = SFofZ (cond_Zopp sa (Zpos na) - cond_Zopp sb (Zpos nb)).
Proof.
  intros Ha Hb Hab.
  pose proof (digits2_pos_le na 53 Ha) as Hda.
  pose proof (digits2_pos_le nb 53 Hb) as Hdb.
  unfold canonical. cbn [SFsub].
  set (da := Zpos (digits2_pos na)) in *. set (db := Zpos (digits2_pos nb)) in *.
  set (ez := Z.min (da - 53) (db - 53)).
  rewrite !shl_align_fst by lia. rewrite <- !Nat.iter_add.
  replace (Z.to_nat (da - 53 - ez) + Z.to_nat (53 - da))%nat with (Z.to_nat (- ez)) by lia.
  replace (Z.to_nat (db - 53 - ez) + Z.to_nat (53 - db))%nat with (Z.to_nat (- ez)) by lia.
  replace ez with (- Z.of_nat (Z.to_nat (- ez))) at 3 by lia.
  rewrite <- binary_normalize_shift with (k := Z.to_nat (- ez)) by done.
  f_equal. rewrite !Zpos_iter_xO. destruct sa, sb; cbn [cond_Zopp]; lia.
Qed.

Lemma SFofZ_canonical (z : Z) :
  z <> 0 -> Z.abs z < 2 ^ 53 ->
  SFofZ z = canonical (z <? 0) (Z.to_pos (Z.abs z))
  /\ cond_Zopp (z <? 0) (Zpos (Z.to_pos (Z.abs z))) = z
  /\ Zpos (Z.to_pos (Z.abs z)) < 2 ^ 53.
Proof.
  intros Hz Hb. destruct z as [|n|n]; [done| |].
  - split; [by apply SFofZ_pos|]. split; [reflexivity|exact Hb].
  - split; [by apply SFofZ_neg|]. split; [reflexivity|exact Hb].
Qed.

Lemma SFadd_SFofZ (a b : Z) :
  Z.abs a < 2 ^ 53 -> Z.abs b < 2 ^ 53 -> Z.abs (a + b) < 2 ^ 53 ->
  SFadd prec emax (SFofZ a) (SFofZ b) = SFofZ (a + b).
Proof.
  intros Ha Hb Hab.
  destruct (decide (a = 0)) as [->|Ha0].
  { destruct (decide (b = 0)) as [->|Hb0]; [reflexivity|].
    rewrite Z.add_0_l. destruct (SFofZ_canonical b Hb0 Hb) as (E & _ & _).
    rewrite E. reflexivity. }
  destruct (SFofZ_canonical a Ha0 Ha) as (Ea & Eza & Hna).
  destruct (decide (b = 0)) as [->|Hb0].
  { rewrite Z.add_0_r, Ea. reflexivity. }
  destruct (SFofZ_canonical b Hb0 Hb) as (Eb & Ezb & Hnb).
  rewrite Ea, Eb, SFadd_canonical; rewrite ?Eza, ?Ezb; done.
Qed.

Lemma SFsub_SFofZ (a b : Z) :
  Z.abs a < 2 ^ 53 -> Z.abs b < 2 ^ 53 -> Z.abs (a - b) < 2 ^ 53 ->
  SFsub prec emax (SFofZ a) (SFofZ b) = SFofZ (a - b).
Proof.
  intros Ha Hb Hab.
  destruct (decide (b = 0)) as [->|Hb0].
  { rewrite Z.sub_0_r. destruct (decide (a = 0)) as [->|Ha0]; [reflexivity|].
    destruct (SFofZ_canonical a Ha0 Ha) as (E & _ & _). rewrite E. reflexivity. }
  destruct (SFofZ_canonical b Hb0 Hb) as (Eb & Ezb & Hnb).
  destruct (decide (a = 0)) as [->|Ha0].
  { rewrite Eb. destruct b as [|n|n]; [done| |].
    - change (0 - Zpos n) with (Zneg n). rewrite SFofZ_neg by done. reflexivity.
    - change (0 - Zneg n) with (Zpos n). rewrite SFofZ_pos by done. reflexivity. }
  destruct (SFofZ_canonical a Ha0 Ha) as (Ea & Eza & Hna).
  rewrite Ea, Eb, SFsub_canonical; rewrite ?Eza, ?Ezb; done.
Qed.

Lemma add_integer (x y : float) (a b : Z) :
  integer_valued x a -> integer_valued y b ->
  Z.abs a < 2 ^ 53 -> Z.abs b < 2 ^ 53 -> Z.abs (a + b) < 2 ^ 53 ->
  integer_valued (x + y)%float (a + b).
Proof.
  unfold integer_valued. intros Hx Hy Ha Hb Hab.
  rewrite add_spec, Hx, Hy. by apply SFadd_SFofZ.
Qed.

Lemma sub_integer (x y : float) (a b : Z) :
  integer_valued x a -> integer_valued y b ->
  Z.abs a < 2 ^ 53 -> Z.abs b < 2 ^ 53 -> Z.abs (a - b) < 2 ^ 53 ->
  integer_valued (x - y)%float (a - b).
Proof.
  unfold integer_valued. intros Hx Hy Ha Hb Hab.
  rewrite sub_spec, Hx, Hy. by apply SFsub_SFofZ.
Qed.

Lemma integer_valued_zero : integer_valued 0%float 0.
Proof. reflexivity. Qed.

Lemma integer_valued_inj (x y : float) (z : Z) :
  integer_valued x z -> integer_valued y z -> x = y.
Proof. unfold integer_valued. intros Hx Hy. apply Prim2SF_inj. congruence. Qed.

(** A whole number is not falsy unless it is [0]: [x || 0] is [x]. *)
Lemma integer_valued_or_zero (x : float) (z : Z) :
  integer_valued x z -> Z.abs z < 2 ^ 53 ->
  (if float_falsy x then 0%float else x) = x.
Proof.
  unfold integer_valued. intros Hx Hz.
  destruct (decide (z = 0)) as [->|Hz0].
  - assert (x = 0%float) as -> by (by apply Prim2SF_inj). reflexivity.
  - destruct (SFofZ_canonical z Hz0 Hz) as (E & _ & _).
    rewrite E in Hx. unfold float_falsy.
    rewrite !FloatAxioms.eqb_spec, Hx. unfold canonical, SFeqb.
    destruct (z <? 0); cbn [SFcompare];
      rewrite Z.compare_refl, Pos.compare_cont_refl; reflexivity.
Qed.

End Binary64.

(** * The example of the specification *)

Example example_annual :
  calculateAnnualData example_txs =
  {| annual_income := 1000%float; annual_expenses := 250%float;
     annual_balance := 750%float |}.
Proof. reflexivity. Qed.

Example example_monthly :
  map (fun kb => (fst kb, income (snd kb), expenses (snd kb), balance (snd kb)))
      <$> calculateMonthlyData example_txs =
  Some [ ("2024-01", 1000, 200, 800); ("2024-02", 0, 50, -50) ]%float.
Proof. reflexivity. Qed.

Example example_categories :
  expensesByCategory example_txs = [ ("food", CNumber 250%float) ].
Proof. reflexivity. Qed.

(** Keys that are array indices come first in [Object.entries], in
    ascending order: years before year-months. *)
Example example_index_keys :
  obj_keys <$> calculateMonthlyData
    [ tx "income" 1 "a" "2024-02"; tx "income" 1 "a" "2024";
      tx "income" 1 "a" "1999"; tx "income" 1 "a" "2024-01" ] =
  Some [ "1999"; "2024"; "2024-02"; "2024-01" ].
Proof. reflexivity. Qed.

Example example_whole_numbers :
  isWhole 1000%float /\ ~ isWhole 0.5%float /\ ~ isWhole 0.1%float /\
  ~ isWhole (-3)%float /\ toInteger 1000%float = 1000%Z.
Proof.
  split_and!.
  - split; [reflexivity | by vm_compute].
  - intros [H _]. by vm_compute in H.
  - intros [H _]. by vm_compute in H.
  - intros [_ H]. by vm_compute in H.
  - reflexivity.
Qed.

(** * Facts about objects used as dictionaries *)
Section ObjFacts.
Context {V : Type}.
Implicit Types (o : Obj V) (k : string) (v : V).

Lemma obj_get_app o1 o2 k :
  obj_get k (o1 ++ o2) =
  match obj_get k o1 with Some v => Some v | None => obj_get k o2 end.
Proof.
  induction o1 as [|[k1 v1] o1 IH]; simpl; [done|].
  by destruct (String.eqb k k1).
Qed.

Lemma obj_get_None o k : obj_get k o = None <-> k ∉ obj_keys o.
Proof.
  induction o as [|[k1 v1] o IH]; simpl.
  - split; [intros _; apply not_elem_of_nil | done].
  - rewrite not_elem_of_cons. destruct (String.eqb k k1) eqn:E.
    + apply String.eqb_eq in E. split; [done | intros [? _]; done].
    + apply String.eqb_neq in E. rewrite IH. tauto.
Qed.

Lemma obj_get_Some_elem o k v : obj_get k o = Some v -> (k, v) ∈ o.
Proof.
  induction o as [|[k1 v1] o IH]; simpl; [done|].
  destruct (String.eqb k k1) eqn:E.
  - apply String.eqb_eq in E. intros [= ->]. subst. apply elem_of_cons; auto.
  - intros Hg. apply elem_of_cons; auto.
Qed.

(** An entry of an object whose keys are distinct is what reading its
    key gives. *)
Lemma obj_get_elem o k v :
  NoDup (obj_keys o) -> (k, v) ∈ o -> obj_get k o = Some v.
Proof.
  induction o as [|[k1 v1] o IH]; simpl; [by intros _ ?%elem_of_nil|].
  intros [Hk1 Hnd]%NoDup_cons [[= -> ->]|Hin]%elem_of_cons.
  - by rewrite String.eqb_refl.
  - destruct (String.eqb k k1) eqn:E; [|by apply IH].
    apply String.eqb_eq in E. subst k1. exfalso. apply Hk1.
    apply (list_elem_of_fmap_2 fst) in Hin. exact Hin.
Qed.

(** Where an assignment writes: in place when the key is there ... *)
Lemma obj_set_old o k v v0 :
  obj_get k o = Some v0 ->
  exists o1 o2, o = o1 ++ (k, v0) :: o2 /\ obj_get k o1 = None /\
                obj_set k v o = o1 ++ (k, v) :: o2.
Proof.
  intros Hg. unfold obj_set. rewrite Hg. clear -Hg.
  induction o as [|[k1 v1] o IH]; simpl in *; [done|].
  destruct (String.eqb k k1) eqn:E.
  - apply String.eqb_eq in E. subst k1. injection Hg as ->.
    by exists [], o.
  - destruct (IH Hg) as (o1 & o2 & -> & Hn & ->).
    exists ((k1, v1) :: o1), o2. simpl. by rewrite E.
Qed.

Lemma obj_insert_index_split o (n : Z) k :
  exists o1 o2, o = o1 ++ o2 /\
    forall v, obj_insert_index n k v o = o1 ++ (k, v) :: o2.
Proof.
  induction o as [|[k1 v1] o IH]; simpl.
  - by exists [], [].
  - destruct (arrayIndex k1) as [n1|]; [|by exists [], ((k1, v1) :: o)].
    destruct (n1 <? n)%Z; [|by exists [], ((k1, v1) :: o)].
    destruct IH as (o1 & o2 & -> & IH). exists ((k1, v1) :: o1), o2.
    split; [done|]. intros v. by rewrite IH.
Qed.

(** ... and at a new place otherwise. *)
Lemma obj_set_new o k :
  obj_get k o = None ->
  exists o1 o2, o = o1 ++ o2 /\ forall v, obj_set k v o = o1 ++ (k, v) :: o2.
Proof.
  intros Hg. unfold obj_set. rewrite Hg.
  destruct (arrayIndex k) as [n|]; [apply obj_insert_index_split|].
  exists o, []. by rewrite app_nil_r.
Qed.

(** A key that is no array index goes to the end. *)
Lemma obj_set_new_plain o k v :
  obj_get k o = None -> arrayIndex k = None -> obj_set k v o = o ++ [(k, v)].
Proof. intros Hg Hi. unfold obj_set. by rewrite Hg, Hi. Qed.

Lemma obj_get_set_eq o k v : obj_get k (obj_set k v o) = Some v.
Proof.
  destruct (obj_get k o) as [v0|] eqn:E.
  - destruct (obj_set_old o k v v0 E) as (o1 & o2 & _ & Hn & ->).
    rewrite obj_get_app, Hn. simpl. by rewrite String.eqb_refl.
  - destruct (obj_set_new o k E) as (o1 & o2 & -> & ->).
    rewrite obj_get_app in E |- *. destruct (obj_get k o1); [done|].
    simpl. by rewrite String.eqb_refl.
Qed.

Lemma obj_get_set_ne o k k' v :
  k <> k' -> obj_get k' (obj_set k v o) = obj_get k' o.
Proof.
  intros Hne.
  assert (String.eqb k' k = false) as Hb by (apply String.eqb_neq; congruence).
  destruct (obj_get k o) as [v0|] eqn:E.
  - destruct (obj_set_old o k v v0 E) as (o1 & o2 & -> & _ & ->).
    rewrite !obj_get_app. simpl. by rewrite Hb.
  - destruct (obj_set_new o k E) as (o1 & o2 & -> & ->).
    rewrite !obj_get_app. simpl. by rewrite Hb.
Qed.

Lemma obj_replace_replace o k v v' :
  obj_replace k v' (obj_replace k v o) = obj_replace k v' o.
Proof.
  induction o as [|[k1 v1] o IH]; simpl; [done|].
  destruct (String.eqb k k1) eqn:E; simpl; rewrite E; [done | by rewrite IH].
Qed.

Lemma obj_replace_app o1 o2 k v v0 :
  obj_get k o1 = None ->
  obj_replace k v (o1 ++ (k, v0) :: o2) = o1 ++ (k, v) :: o2.
Proof.
  induction o1 as [|[k1 v1] o1 IH]; simpl.
  - by rewrite String.eqb_refl.
  - destruct (String.eqb k k1); [done|]. intros Hn. by rewrite IH.
Qed.

Lemma obj_set_set o k v v' : obj_set k v' (obj_set k v o) = obj_set k v' o.
Proof.
  unfold obj_set at 1. rewrite obj_get_set_eq.
  destruct (obj_get k o) as [v0|] eqn:E.
  - unfold obj_set. rewrite E. apply obj_replace_replace.
  - destruct (obj_set_new o k E) as (o1 & o2 & -> & Hs). rewrite !Hs.
    rewrite obj_get_app in E. destruct (obj_get k o1) eqn:E1; [done|].
    by apply obj_replace_app.
Qed.

Lemma obj_set_Permutation o k v :
  obj_get k o = None -> obj_set k v o ≡ₚ (k, v) :: o.
Proof.
  intros E. destruct (obj_set_new o k E) as (o1 & o2 & -> & ->).
  by rewrite Permutation_middle.
Qed.

Lemma obj_keys_set_old o k v :
  is_Some (obj_get k o) -> obj_keys (obj_set k v o) = obj_keys o.
Proof.
  intros [v0 E]. destruct (obj_set_old o k v v0 E) as (o1 & o2 & -> & _ & ->).
  unfold obj_keys. by rewrite !map_app.
Qed.

Lemma obj_keys_set_NoDup o k v :
  NoDup (obj_keys o) -> NoDup (obj_keys (obj_set k v o)).
Proof.
  intros Hnd. destruct (obj_get k o) as [v0|] eqn:E.
  - by rewrite obj_keys_set_old.
  - unfold obj_keys. rewrite (obj_set_Permutation o k v E). simpl.
    apply NoDup_cons. split; [|done]. by apply obj_get_None.
Qed.

Lemma obj_values_set_Forall (P : V -> Prop) o k v :
  Forall P (obj_values o) -> P v -> Forall P (obj_values (obj_set k v o)).
Proof.
  intros Ho Hv. unfold obj_values in *. destruct (obj_get k o) as [v0|] eqn:E.
  - destruct (obj_set_old o k v v0 E) as (o1 & o2 & -> & _ & ->).
    rewrite map_app in *. simpl in *.
    apply Forall_app in Ho as [H1 [_ H2]%Forall_cons].
    apply Forall_app. split; [done|]. by constructor.
  - rewrite (obj_set_Permutation o k v E). simpl. by constructor.
Qed.

(** The keys after an assignment are the old ones and the assigned one. *)
Lemma obj_keys_set_elem o k k' v :
  k' ∈ obj_keys (obj_set k v o) <-> k' = k \/ k' ∈ obj_keys o.
Proof.
  destruct (obj_get k o) as [v0|] eqn:E.
  - rewrite obj_keys_set_old by eauto. split; [auto|].
    intros [->|?]; [|done].
    apply obj_get_Some_elem in E. by apply (list_elem_of_fmap_2 fst) in E.
  - unfold obj_keys. rewrite (obj_set_Permutation o k v E). simpl.
    apply elem_of_cons.
Qed.
End ObjFacts.

(** * Facts about the aggregation, for any numbers *)
Section AggregationFacts.
Context {num : Type} `{Number num}.
Implicit Types (t : Transaction num) (txs g : list (Transaction num)).
Implicit Types (b : MonthlyBucket num) (md : MonthlyData num) (k : string).

Lemma isIncome_true t : isIncome t = true <-> type t = "income".
Proof. apply String.eqb_eq. Qed.

Lemma isIncome_false t : isIncome t = false <-> type t <> "income".
Proof. apply String.eqb_neq. Qed.

Lemma isExpense_true t : isExpense t = true <-> type t = "expense".
Proof. apply String.eqb_eq. Qed.

Lemma isExpense_false t : isExpense t = false <-> type t <> "expense".
Proof. apply String.eqb_neq. Qed.

Lemma total_snoc (xs : list num) x : total (xs ++ [x]) = num_add (total xs) x.
Proof. unfold total. by rewrite foldl_snoc. Qed.

(** *** Inherited names *)

Lemma inheritedFromObject_true k :
  inheritedFromObject k = true <-> k ∈ objectPrototypeNames.
Proof.
  unfold inheritedFromObject. rewrite existsb_exists. split.
  - intros (x & Hx & ->%String.eqb_eq). by apply list_elem_of_In.
  - intros Hk. exists k. split; [by apply list_elem_of_In | apply String.eqb_refl].
Qed.

Lemma inheritedFromObject_false k :
  inheritedFromObject k = false <-> k ∉ objectPrototypeNames.
Proof.
  rewrite <- inheritedFromObject_true. by destruct (inheritedFromObject k).
Qed.

Lemma substring_length_le (n : nat) (s : string) :
  (String.length (String.substring 0 n s) <= n)%nat.
Proof.
  revert s. induction n as [|n IH]; intros [|c s]; simpl; try lia.
  specialize (IH s). lia.
Qed.

(** Of the names of [Object.prototype] only [valueOf] has at most seven
    characters. *)
Lemma inherited_monthYear (s : string) :
  String.substring 0 7 s ∈ objectPrototypeNames <->
  String.substring 0 7 s = "valueOf".
Proof.
  pose proof (substring_length_le 7 s) as Hl. split.
  - unfold objectPrototypeNames. rewrite !elem_of_cons, elem_of_nil.
    intros Hk.
    repeat (destruct Hk as [Hk|Hk]; [try (rewrite Hk in Hl; simpl in Hl; lia)|]);
      done.
  - intros ->. unfold objectPrototypeNames. rewrite !elem_of_cons. tauto.
Qed.

(** *** Annual data *)

Lemma annual_fold txs (a : AnnualData num) :
  foldl annualStep a txs =
  {| annual_income := foldl num_add (annual_income a) (incomeAmounts txs);
     annual_expenses := foldl num_add (annual_expenses a) (otherAmounts txs);
     annual_balance := annual_balance a |}.
Proof.
  revert a. induction txs as [|t txs IH]; intros a; simpl.
  - by destruct a.
  - rewrite IH. unfold annualStep, incomeAmounts, otherAmounts.
    rewrite !filter_cons. destruct (isIncome t) eqn:E.
    + apply isIncome_true in E. rewrite decide_True, decide_False by auto. done.
    + apply isIncome_false in E. rewrite decide_False, decide_True by auto. done.
Qed.

Lemma calculateAnnualData_eq txs :
  calculateAnnualData txs =
  {| annual_income := total (incomeAmounts txs);
     annual_expenses := total (otherAmounts txs);
     annual_balance := num_sub (total (incomeAmounts txs)) (total (otherAmounts txs)) |}.
Proof. unfold calculateAnnualData. by rewrite annual_fold. Qed.


(** *** Monthly data *)

(** A step that does not throw amounts to one assignment. *)
Lemma monthlyStep_Some md md' t :
  monthlyStep md t = Some md' -> md' = monthlyAssign md t.
Proof.
  unfold monthlyStep, monthlyAssign, monthYear, obj_read.
  destruct (obj_get _ md) as [b|] eqn:E; simpl.
  - rewrite E. by intros [= <-].
  - destruct (inheritedFromObject _); [by rewrite E|].
    rewrite obj_get_set_eq, obj_set_set. by intros [= <-].
Qed.

(** A step throws on a key that is inherited and not a bucket, and on
    no other. *)
Lemma monthlyStep_cases md t :
  monthlyStep md t =
  if inheritedFromObject (String.substring 0 7 (date t)) &&
     bool_decide (obj_get (String.substring 0 7 (date t)) md = None)
  then None else Some (monthlyAssign md t).
Proof.
  unfold monthlyStep, monthlyAssign, monthYear, obj_read.
  destruct (obj_get _ md) as [b|] eqn:E; simpl.
  - rewrite E, andb_false_r. done.
  - destruct (inheritedFromObject _); simpl; [by rewrite E|].
    by rewrite obj_get_set_eq, obj_set_set.
Qed.

Lemma monthlyAssign_get md t k :
  obj_get k (monthlyAssign md t) =
  if decide (String.substring 0 7 (date t) = k)
  then Some (addToBucket t (default emptyBucket (obj_get k md)))
  else obj_get k md.
Proof.
  unfold monthlyAssign. case_decide as E.
  - subst k. apply obj_get_set_eq.
  - by apply obj_get_set_ne.
Qed.

Lemma calculateMonthlyData_snoc txs t :
  calculateMonthlyData (txs ++ [t]) =
  md ← calculateMonthlyData txs; monthlyStep md t.
Proof. unfold calculateMonthlyData. by rewrite foldl_snoc. Qed.

(** Induction over the runs of the monthly loop that do not throw. *)
Lemma calculateMonthlyData_ind (P : list (Transaction num) -> MonthlyData num -> Prop) :
  P [] [] ->
  (forall txs t md,
     calculateMonthlyData txs = Some md -> P txs md ->
     monthlyStep md t = Some (monthlyAssign md t) ->
     P (txs ++ [t]) (monthlyAssign md t)) ->
  forall txs md, calculateMonthlyData txs = Some md -> P txs md.
Proof.
  intros Hnil Hstep txs.
  induction txs as [|t txs IH] using rev_ind; intros md Hmd.
  - injection Hmd as <-. exact Hnil.
  - rewrite calculateMonthlyData_snoc in Hmd.
    destruct (calculateMonthlyData txs) as [md0|] eqn:E; [|done].
    simpl in Hmd. pose proof (monthlyStep_Some _ _ _ Hmd) as ->.
    apply Hstep; auto.
Qed.


Lemma incomeAmounts_snoc txs t :
  incomeAmounts (txs ++ [t]) =
  if isIncome t then incomeAmounts txs ++ [amount t] else incomeAmounts txs.
Proof.
  unfold incomeAmounts. rewrite filter_app, fmap_app, filter_cons, filter_nil.
  destruct (isIncome t) eqn:E.
  - apply isIncome_true in E. by rewrite decide_True.
  - apply isIncome_false in E. rewrite decide_False by done. simpl.
    by rewrite app_nil_r.
Qed.

Lemma otherAmounts_snoc txs t :
  otherAmounts (txs ++ [t]) =
  if isIncome t then otherAmounts txs else otherAmounts txs ++ [amount t].
Proof.
  unfold otherAmounts. rewrite filter_app, fmap_app, filter_cons, filter_nil.
  destruct (isIncome t) eqn:E.
  - apply isIncome_true in E. rewrite decide_False by auto. simpl.
    by rewrite app_nil_r.
  - apply isIncome_false in E. by rewrite decide_True.
Qed.

Lemma inMonth_snoc k txs t :
  inMonth k (txs ++ [t]) =
  if decide (String.substring 0 7 (date t) = k)
  then inMonth k txs ++ [t] else inMonth k txs.
Proof.
  unfold inMonth. rewrite filter_app, filter_cons, filter_nil.
  case_decide; [done | by rewrite app_nil_r].
Qed.

(** Adding a transaction to a bucket whose sums agree with its list
    gives the bucket of the extended list; the old balance is not read. *)
Lemma addToBucket_groupBucket t b :
  income b = total (incomeAmounts (transactions b)) ->
  expenses b = total (otherAmounts (transactions b)) ->
  addToBucket t b = groupBucket (transactions b ++ [t]).
Proof.
  intros Hi He. unfold addToBucket, groupBucket.
  rewrite incomeAmounts_snoc, otherAmounts_snoc.
  destruct (isIncome t); simpl; rewrite ?total_snoc, Hi, He; done.
Qed.

Lemma monthBucket_snoc k txs t :
  String.substring 0 7 (date t) = k ->
  monthBucket k (txs ++ [t]) =
  Some (addToBucket t (default emptyBucket (monthBucket k txs))).
Proof.
  intros Hk. unfold monthBucket. rewrite inMonth_snoc, decide_True by done.
  destruct (inMonth k txs) as [|t0 g]; simpl.
  - by rewrite (addToBucket_groupBucket t emptyBucket).
  - by rewrite (addToBucket_groupBucket t (groupBucket (t0 :: g))).
Qed.

Lemma calculateMonthlyData_get txs md k :
  calculateMonthlyData txs = Some md -> obj_get k md = monthBucket k txs.
Proof.
  intros Hmd. revert k. revert txs md Hmd.
  apply (calculateMonthlyData_ind
           (fun txs md => forall k, obj_get k md = monthBucket k txs));
    [done|].
  intros txs t md _ IH _ k.
  rewrite monthlyAssign_get, IH. case_decide as E.
  - by rewrite monthBucket_snoc.
  - unfold monthBucket. by rewrite inMonth_snoc, decide_False.
Qed.

Lemma calculateMonthlyData_NoDup txs md :
  calculateMonthlyData txs = Some md -> NoDup (obj_keys md).
Proof.
  revert txs md.
  apply (calculateMonthlyData_ind (fun txs md => NoDup (obj_keys md)));
    [constructor|].
  intros txs t md _ IH _. by apply obj_keys_set_NoDup.
Qed.

Lemma monthBucket_is_Some k txs :
  is_Some (monthBucket k txs) <->
  exists t, t ∈ txs /\ String.substring 0 7 (date t) = k.
Proof.
  unfold monthBucket, inMonth. split.
  - destruct (filter _ txs) as [|t g] eqn:E; [by intros [? ?]|]. intros _.
    assert (t ∈ filter (fun t => String.substring 0 7 (date t) = k) txs) as Ht
      by (rewrite E; apply elem_of_cons; auto).
    apply list_elem_of_filter in Ht as [? ?]. eauto.
  - intros (t & Ht & Hk).
    assert (t ∈ filter (fun t => String.substring 0 7 (date t) = k) txs) as Hin
      by (apply list_elem_of_filter; auto).
    destruct (filter _ txs); [by apply elem_of_nil in Hin | eauto].
Qed.

(** The loop runs through exactly when no date starts with [valueOf]. *)
Lemma calculateMonthlyData_plainDates txs md :
  calculateMonthlyData txs = Some md -> plainDates txs.
Proof.
  revert txs md.
  apply (calculateMonthlyData_ind (fun txs md => plainDates txs));
    [constructor|].
  intros txs t md Hmd IH Hstep.
  apply Forall_app. split; [done|]. constructor; [|constructor].
  intros Hk. rewrite monthlyStep_cases in Hstep.
  assert (inheritedFromObject (String.substring 0 7 (date t)) = true) as Hi
    by (by rewrite Hk).
  rewrite Hi in Hstep. simpl in Hstep.
  case_bool_decide as Hg; [done|].
  rewrite (calculateMonthlyData_get _ _ _ Hmd) in Hg.
  assert (is_Some (monthBucket (String.substring 0 7 (date t)) txs)) as Hs.
  { destruct (monthBucket _ txs); [eauto | done]. }
  apply monthBucket_is_Some in Hs as (t' & Ht' & Hk').
  unfold plainDates in IH. rewrite Forall_forall in IH.
  apply (IH t' Ht'). congruence.
Qed.

Lemma calculateMonthlyData_returns txs :
  plainDates txs -> is_Some (calculateMonthlyData txs).
Proof.
  induction txs as [|t txs IH] using rev_ind; [by eexists|].
  intros [Htxs [Ht _]%Forall_cons]%Forall_app.
  destruct (IH Htxs) as [md Hmd].
  rewrite calculateMonthlyData_snoc, Hmd. simpl.
  rewrite monthlyStep_cases.
  assert (inheritedFromObject (String.substring 0 7 (date t)) = false) as ->.
  { apply inheritedFromObject_false. by rewrite inherited_monthYear. }
  by eexists.
Qed.


(** With the declared types only, "not income" is "expense". *)
Lemma otherAmounts_typed txs :
  Forall typed txs -> otherAmounts txs = expenseAmounts txs.
Proof.
  intros Ht. unfold otherAmounts, expenseAmounts. f_equal.
  induction Ht as [|t txs [Ht|Ht] _ IH]; [done| |]; rewrite !filter_cons.
  - rewrite !decide_False; [done | by rewrite Ht | by rewrite Ht; auto].
  - rewrite !decide_True; [by rewrite IH | done | by rewrite Ht].
Qed.
End AggregationFacts.

(** * Facts about the category totals, for any numbers *)
Section CategoryFacts.
Context {num : Type} `{Number num}.
Implicit Types (t : Transaction num) (txs : list (Transaction num)).
Implicit Types (c : string).

Lemma expensesByCategory_snoc txs t :
  expensesByCategory (txs ++ [t]) = categoryStep (expensesByCategory txs) t.
Proof. unfold expensesByCategory. by rewrite foldl_snoc. Qed.


(** A transaction that is not expense-type leaves [categories] as it is. *)
Lemma categoryStep_not_expense (categories : Obj (CategoryValue num)) t :
  type t <> "expense" -> categoryStep categories t = categories.
Proof.
  intros Ht. unfold categoryStep.
  by rewrite (proj2 (isExpense_false t) Ht).
Qed.


Lemma categoryTotal_snoc (xs : list num) a :
  categoryTotal (xs ++ [a]) =
  Some (num_add (match categoryTotal xs with
                 | Some v => num_or_zero v
                 | None => num_zero
                 end) a).
Proof. destruct xs as [|x xs]; simpl; [done|]. by rewrite foldl_snoc. Qed.

Lemma categoryAmounts_snoc c txs t :
  categoryAmounts c (txs ++ [t]) =
  if decide (type t = "expense" /\ category t = c)
  then categoryAmounts c txs ++ [amount t]
  else categoryAmounts c txs.
Proof.
  unfold categoryAmounts. rewrite filter_app, fmap_app, filter_cons, filter_nil.
  case_decide; [done | simpl; by rewrite app_nil_r].
Qed.

Lemma proto_inherited : "__proto__" ∈ objectPrototypeNames.
Proof. unfold objectPrototypeNames. rewrite !elem_of_cons. tauto. Qed.

(** The step on an expense-type transaction whose label is not
    inherited: one assignment of a number. *)
Lemma categoryStep_plain (categories : Obj (CategoryValue num)) t :
  type t = "expense" ->
  category t ∉ objectPrototypeNames ->
  categoryStep categories t =
  obj_set (category t)
    (match obj_get (category t) categories with
     | Some (CNumber v) => CNumber (num_add (num_or_zero v) (amount t))
     | Some CText => CText
     | None => CNumber (num_add num_zero (amount t))
     end) categories.
Proof.
  intros Ht Hc. unfold categoryStep, obj_read.
  rewrite (proj2 (isExpense_true t) Ht).
  rewrite (proj2 (inheritedFromObject_false _) Hc).
  assert (String.eqb (category t) "__proto__" = false) as ->.
  { apply String.eqb_neq. intros E. apply Hc. rewrite E. apply proto_inherited. }
  by destruct (obj_get (category t) categories) as [[v|]|].
Qed.

(** The keys after a step are the old ones, and the label of an
    expense-type transaction unless it is [__proto__]. *)
Lemma categoryStep_keys (categories : Obj (CategoryValue num)) t c :
  c ∈ obj_keys (categoryStep categories t) <->
  c ∈ obj_keys categories \/
  (type t = "expense" /\ category t = c /\ c <> "__proto__").
Proof.
  unfold categoryStep. destruct (isExpense t) eqn:E.
  - apply isExpense_true in E.
    destruct (String.eqb (category t) "__proto__") eqn:Ep.
    + apply String.eqb_eq in Ep. split; [auto|].
      intros [?|(_ & <- & ?)]; done.
    + apply String.eqb_neq in Ep. rewrite obj_keys_set_elem. split.
      * intros [->|?]; auto.
      * intros [?|(_ & <- & _)]; auto.
  - apply isExpense_false in E. split; [auto|]. intros [?|(? & _)]; done.
Qed.

Lemma categoryStep_get_ne (categories : Obj (CategoryValue num)) t c :
  category t <> c ->
  obj_get c (categoryStep categories t) = obj_get c categories.
Proof.
  intros Hc. unfold categoryStep. destruct (isExpense t); [|done].
  destruct (String.eqb (category t) "__proto__"); [done|].
  by apply obj_get_set_ne.
Qed.

(** The total of a category whose label is not inherited is the
    accumulation of the amounts of the expense-type transactions that carry
    the label, and of nothing else. *)
Lemma expensesByCategory_get txs c :
  c ∉ objectPrototypeNames ->
  obj_get c (expensesByCategory txs) =
  CNumber <$> categoryTotal (categoryAmounts c txs).
Proof.
  intros Hc. induction txs as [|t txs IH] using rev_ind; [done|].
  rewrite expensesByCategory_snoc, categoryAmounts_snoc.
  destruct (decide (category t = c)) as [Heq|Hne].
  - destruct (decide (type t = "expense")) as [Ht|Ht].
    + rewrite decide_True by done. subst c.
      rewrite categoryStep_plain by done.
      rewrite obj_get_set_eq, categoryTotal_snoc, IH.
      by destruct (categoryTotal _).
    + rewrite decide_False by tauto. by rewrite categoryStep_not_expense.
  - rewrite decide_False by tauto. by rewrite categoryStep_get_ne.
Qed.

(** An expense labelled [__proto__] leaves no entry. *)
Lemma expensesByCategory_proto txs :
  obj_get "__proto__" (expensesByCategory txs) = None.
Proof.
  induction txs as [|t txs IH] using rev_ind; [done|].
  rewrite expensesByCategory_snoc. apply obj_get_None.
  rewrite categoryStep_keys. intros [Hk|(_ & _ & ?)]; [|done].
  by apply obj_get_None in IH.
Qed.

(** The entry of another inherited name is a string. *)
Lemma expensesByCategory_inherited txs c :
  c ∈ objectPrototypeNames -> c <> "__proto__" ->
  obj_get c (expensesByCategory txs) =
  match categoryAmounts c txs with [] => None | _ => Some CText end.
Proof.
  intros Hc Hp. induction txs as [|t txs IH] using rev_ind; [done|].
  rewrite expensesByCategory_snoc, categoryAmounts_snoc.
  destruct (decide (category t = c)) as [Heq|Hne].
  - destruct (decide (type t = "expense")) as [Ht|Ht].
    + rewrite decide_True by done. subst c.
      unfold categoryStep, obj_read.
      rewrite (proj2 (isExpense_true t) Ht).
      rewrite (proj2 (inheritedFromObject_true _) Hc).
      rewrite (proj2 (String.eqb_neq _ _) Hp), obj_get_set_eq, IH.
      destruct (categoryAmounts (category t) txs); by simpl.
    + rewrite decide_False by tauto. by rewrite categoryStep_not_expense.
  - rewrite decide_False by tauto. by rewrite categoryStep_get_ne.
Qed.

(** The labels that have an entry. *)
Lemma expensesByCategory_keys_elem txs c :
  c ∈ obj_keys (expensesByCategory txs) <->
  exists t, t ∈ txs /\ type t = "expense" /\ category t = c /\ c <> "__proto__".
Proof.
  induction txs as [|t txs IH] using rev_ind.
  - split; [by intros ?%elem_of_nil | by intros (t & ?%elem_of_nil & _)].
  - rewrite expensesByCategory_snoc, categoryStep_keys, IH. split.
    + intros [(t' & Ht' & ?)|(? & ? & ?)].
      * exists t'. split; [|done]. apply elem_of_app; auto.
      * exists t. split; [|done]. apply elem_of_app; right.
        by apply list_elem_of_singleton.
    + intros (t' & [Ht'|Ht']%elem_of_app & H1 & H2 & H3).
      * left. by exists t'.
      * apply list_elem_of_singleton in Ht'. subst t'. by right.
Qed.

Lemma expensesByCategory_NoDup txs : NoDup (obj_keys (expensesByCategory txs)).
Proof.
  induction txs as [|t txs IH] using rev_ind; [constructor|].
  rewrite expensesByCategory_snoc. unfold categoryStep.
  destruct (isExpense t); [|done].
  destruct (String.eqb _ _); [done | by apply obj_keys_set_NoDup].
Qed.
End CategoryFacts.

(** * Sums of whole amounts *)
Section WholeSums.
Local Open Scope Z_scope.

Lemma sumZ_cons (x : Z) (xs : list Z) : sumZ (x :: xs) = x + sumZ xs.
Proof. reflexivity. Qed.

Lemma sumZ_app (xs ys : list Z) : sumZ (xs ++ ys) = sumZ xs + sumZ ys.
Proof. unfold sumZ. induction xs as [|x xs IH]; simpl; lia. Qed.


Lemma sumZ_nonneg (xs : list Z) : Forall (fun z => 0 <= z) xs -> 0 <= sumZ xs.
Proof. unfold sumZ. induction 1; simpl; lia. Qed.

Lemma sumZ_submseteq (xs ys : list Z) :
  Forall (fun z => 0 <= z) ys -> xs ⊆+ ys -> sumZ xs <= sumZ ys.
Proof.
  intros Hy Hs. induction Hs as [|x l1 l2 _ IH|x y l|x l1 l2 _ IH|l1 l2 l3 H1 IH1 H2 IH2].
  - done.
  - apply Forall_cons in Hy as [_ Hy]. unfold sumZ in *. simpl.
    specialize (IH Hy). lia.
  - unfold sumZ. simpl. lia.
  - apply Forall_cons in Hy as [Hx Hy]. unfold sumZ in *. simpl.
    specialize (IH Hy). lia.
  - assert (Forall (fun z => 0 <= z) l2) as H2'.
    { rewrite Forall_forall in Hy |- *. intros z Hz. apply Hy.
      by apply (elem_of_submseteq l2 l3). }
    specialize (IH1 H2'). specialize (IH2 Hy). lia.
Qed.

(** A left fold of [+] over numbers that stand for integers stands for
    the sum of the integers, when the magnitudes add up to less than
    [2^53]. *)
Lemma foldl_add_integer (xs : list float) (zs : list Z) (acc : float) (a : Z) :
  Forall2 integer_valued xs zs ->
  integer_valued acc a ->
  Z.abs a + sumZ (Z.abs <$> zs) < 2 ^ 53 ->
  integer_valued (foldl PrimFloat.add acc xs) (a + sumZ zs).
Proof.
  intros Hxs. revert acc a.
  induction Hxs as [|x z xs zs Hx Hxs IH]; intros acc a Hacc Hb.
  - simpl. unfold sumZ. simpl. by rewrite Z.add_0_r.
  - assert (0 <= sumZ (Z.abs <$> zs)) as Hpos.
    { apply sumZ_nonneg, Forall_fmap, Forall_true. intros ?. simpl. lia. }
    change (sumZ (Z.abs <$> z :: zs)) with (Z.abs z + sumZ (Z.abs <$> zs)) in Hb.
    change (sumZ (z :: zs)) with (z + sumZ zs).
    replace (a + (z + sumZ zs)) with ((a + z) + sumZ zs) by lia.
    simpl. apply IH; [|lia].
    apply add_integer; [done | done | lia..].
Qed.

Lemma total_integer (xs : list float) (zs : list Z) :
  Forall2 integer_valued xs zs ->
  sumZ (Z.abs <$> zs) < 2 ^ 53 ->
  integer_valued (total xs) (sumZ zs).
Proof.
  intros Hxs Hb. unfold total.
  change (sumZ zs) with (0 + sumZ zs).
  apply foldl_add_integer; [done | apply integer_valued_zero | simpl; lia].
Qed.

Lemma wholeNumbers_Forall2 (xs : list float) :
  Forall isWhole xs -> Forall2 integer_valued xs (toInteger <$> xs).
Proof.
  induction 1 as [|x xs [Hx _] _ IH]; simpl; constructor; done.
Qed.

Lemma wholeNumbers_nonneg (xs : list float) :
  Forall isWhole xs -> Forall (fun z => 0 <= z) (toInteger <$> xs).
Proof. intros Hx. apply Forall_fmap. eapply Forall_impl; [done|]. by intros x [_ ?]. Qed.

Lemma sumZ_abs_nonneg (zs : list Z) :
  Forall (fun z => 0 <= z) zs -> Z.abs <$> zs = zs.
Proof.
  induction 1 as [|z zs Hz _ IH]; [done|]. rewrite fmap_cons, IH. f_equal. lia.
Qed.

(** The total of whole numbers is the number of their sum. *)
Lemma total_whole (xs : list float) :
  wholeNumbers xs ->
  integer_valued (total xs) (sumZ (toInteger <$> xs)) /\
  0 <= sumZ (toInteger <$> xs) < 2 ^ 53.
Proof.
  intros [Hw Hb]. pose proof (wholeNumbers_nonneg xs Hw) as Hn. split.
  - apply total_integer; [by apply wholeNumbers_Forall2|].
    by rewrite sumZ_abs_nonneg.
  - split; [by apply sumZ_nonneg | done].
Qed.

Lemma wholeNumbers_submseteq (xs ys : list float) :
  xs ⊆+ ys -> wholeNumbers ys -> wholeNumbers xs.
Proof.
  intros Hs [Hw Hb]. split.
  - rewrite Forall_forall in Hw |- *. intros x Hx. apply Hw.
    by apply (elem_of_submseteq xs ys).
  - eapply Z.le_lt_trans; [|exact Hb].
    apply sumZ_submseteq; [by apply wholeNumbers_nonneg|].
    by apply fmap_submseteq.
Qed.


(** A sum over a list is the sum, over pairwise distinct keys that cover
    the list, of the sums over the elements of each key. *)
Lemma sumZ_indicator (keys : list string) (k0 : string) (z : Z) :
  NoDup keys ->
  sumZ ((fun k => if decide (k0 = k) then z else 0) <$> keys) =
  if decide (k0 ∈ keys) then z else 0.
Proof.
  induction keys as [|k keys IH].
  - intros _. rewrite decide_False; [done | apply not_elem_of_nil].
  - intros [Hk Hnd]%NoDup_cons. rewrite fmap_cons, sumZ_cons, IH by done.
    destruct (decide (k0 = k)) as [->|Hne].
    + rewrite decide_False by done. rewrite decide_True; [lia|].
      apply elem_of_cons; auto.
    + destruct (decide (k0 ∈ keys)) as [Hin|Hin].
      * rewrite decide_True; [lia|]. apply elem_of_cons; auto.
      * rewrite decide_False; [lia|]. apply not_elem_of_cons; auto.
Qed.

Lemma sumZ_fmap_add {A} (g h : A -> Z) (l : list A) :
  sumZ ((fun k => g k + h k) <$> l) = sumZ (g <$> l) + sumZ (h <$> l).
Proof.
  induction l as [|x l IH]; [done|]. rewrite !fmap_cons, !sumZ_cons, IH. lia.
Qed.

Lemma sumZ_fmap_zero {A} (l : list A) : sumZ ((fun _ => 0) <$> l) = 0.
Proof. induction l as [|x l IH]; [done|]. by rewrite fmap_cons, sumZ_cons, IH. Qed.

Lemma sumZ_by_key {A} (key : A -> string) (f : A -> Z) (keys : list string)
    (l : list A) :
  NoDup keys ->
  (forall x, x ∈ l -> key x ∈ keys) ->
  sumZ ((fun k => sumZ (f <$> filter (fun x => key x = k) l)) <$> keys) =
  sumZ (f <$> l).
Proof.
  intros Hnd. induction l as [|x l IH]; intros Hin.
  - apply sumZ_fmap_zero.
  - rewrite (list_fmap_ext _ (fun k => (if decide (key x = k) then f x else 0) +
               sumZ (f <$> filter (fun x0 => key x0 = k) l)) keys).
    2:{ intros i k _. rewrite filter_cons. by case_decide. }
    rewrite sumZ_fmap_add, IH by (intros y Hy; apply Hin; by apply elem_of_cons; right).
    rewrite sumZ_indicator by done. rewrite decide_True; [done|].
    apply Hin. by apply elem_of_cons; left.
Qed.

Lemma sumZ_filter {A} (f : A -> Z) (P : A -> Prop) `{forall x, Decision (P x)}
    (l : list A) :
  sumZ (f <$> filter P l) =
  sumZ ((fun x => if decide (P x) then f x else 0) <$> l).
Proof.
  induction l as [|x l IH]; [done|].
  rewrite filter_cons, fmap_cons, sumZ_cons, <- IH. by case_decide.
Qed.
End WholeSums.

(** * The aggregation on whole amounts *)
Section WholeAggregation.
Local Open Scope Z_scope.
Implicit Types (t : Transaction float) (txs g : list (Transaction float)).
Implicit Types (md : MonthlyData float) (k : string).

Lemma wholeAmounts_submseteq g txs :
  g ⊆+ txs -> wholeAmounts txs -> wholeAmounts g.
Proof.
  intros Hs. apply wholeNumbers_submseteq. by apply fmap_submseteq.
Qed.

Lemma wholeAmounts_filter (P : Transaction float -> Prop)
    `{forall t, Decision (P t)} txs :
  wholeAmounts txs -> wholeAmounts (filter P txs).
Proof. apply wholeAmounts_submseteq, sublist_submseteq, sublist_filter. Qed.

Lemma wholeAmount_fmap txs :
  toInteger <$> (amount <$> txs) = wholeAmount <$> txs.
Proof. by rewrite <- list_fmap_compose. Qed.

Lemma wholeAmounts_bound txs :
  wholeAmounts txs ->
  Forall (fun t => 0 <= wholeAmount t) txs /\
  0 <= sumZ (wholeAmount <$> txs) < 2 ^ 53.
Proof.
  intros [Hw Hb]. rewrite wholeAmount_fmap in Hb.
  assert (Forall (fun t => 0 <= wholeAmount t) txs) as Hn.
  { rewrite Forall_fmap in Hw. eapply Forall_impl; [exact Hw|].
    by intros t [_ ?]. }
  split; [done|]. split; [|done].
  apply sumZ_nonneg, Forall_fmap. exact Hn.
Qed.

(** The total of the amounts of a part of the list is the number of
    their sum, which is at most the sum over the whole list. *)
Lemma total_filter_whole (P : Transaction float -> Prop)
    `{forall t, Decision (P t)} txs :
  wholeAmounts txs ->
  integer_valued (total (amount <$> filter P txs))
                 (sumZ (wholeAmount <$> filter P txs)) /\
  0 <= sumZ (wholeAmount <$> filter P txs) <= sumZ (wholeAmount <$> txs).
Proof.
  intros Hw. pose proof (wholeAmounts_filter P txs Hw) as Hf.
  destruct (total_whole _ Hf) as [Hi [Hlo _]].
  rewrite wholeAmount_fmap in Hi, Hlo. split; [done|]. split; [done|].
  apply sumZ_submseteq.
  - apply Forall_fmap. by apply wholeAmounts_bound.
  - apply fmap_submseteq, sublist_submseteq, sublist_filter.
Qed.

(** Income and the rest make up the whole. *)
Lemma sumZ_income_other txs :
  sumZ (wholeAmount <$> filter (fun t => type t = "income") txs) +
  sumZ (wholeAmount <$> filter (fun t => type t <> "income") txs) =
  sumZ (wholeAmount <$> txs).
Proof.
  rewrite !sumZ_filter, <- sumZ_fmap_add. f_equal.
  apply list_fmap_ext. intros _ t _. simpl.
  destruct (decide (type t = "income")).
  - rewrite decide_False by tauto. lia.
  - rewrite decide_True by done. lia.
Qed.

(** The three annual figures on whole amounts. *)
Lemma calculateAnnualData_whole txs :
  wholeAmounts txs ->
  integer_valued (annual_income (calculateAnnualData txs))
    (sumZ (wholeAmount <$> filter (fun t => type t = "income") txs)) /\
  integer_valued (annual_expenses (calculateAnnualData txs))
    (sumZ (wholeAmount <$> filter (fun t => type t <> "income") txs)) /\
  integer_valued (annual_balance (calculateAnnualData txs))
    (sumZ (wholeAmount <$> filter (fun t => type t = "income") txs) -
     sumZ (wholeAmount <$> filter (fun t => type t <> "income") txs)).
Proof.
  intros Hw. rewrite calculateAnnualData_eq. simpl.
  destruct (total_filter_whole (fun t => type t = "income") txs Hw) as [Hi Hbi].
  destruct (total_filter_whole (fun t => type t <> "income") txs Hw) as [Ho Hbo].
  destruct (wholeAmounts_bound txs Hw) as [_ Hb].
  split; [done|]. split; [done|].
  apply sub_integer; [done | done | lia..].
Qed.

(** Every entry of the monthly object is the bucket of a group. *)
Lemma calculateMonthlyData_entries {num : Type} `{Number num}
    (txs : list (Transaction num)) (md : MonthlyData num) k b :
  calculateMonthlyData txs = Some md ->
  (k, b) ∈ md -> b = groupBucket (inMonth k txs).
Proof.
  intros Hmd Hin.
  pose proof (obj_get_elem md k b (calculateMonthlyData_NoDup txs md Hmd) Hin) as Hg.
  rewrite (calculateMonthlyData_get txs md k Hmd) in Hg.
  unfold monthBucket in Hg. destruct (inMonth k txs); [done|].
  by injection Hg as <-.
Qed.

Lemma calculateMonthlyData_covers {num : Type} `{Number num}
    (txs : list (Transaction num)) (md : MonthlyData num) (t : Transaction num) :
  calculateMonthlyData txs = Some md ->
  t ∈ txs -> String.substring 0 7 (date t) ∈ obj_keys md.
Proof.
  intros Hmd Ht.
  destruct (decide (String.substring 0 7 (date t) ∈ obj_keys md)) as [|Hn]; [done|].
  apply obj_get_None in Hn.
  rewrite (calculateMonthlyData_get txs md _ Hmd) in Hn.
  assert (is_Some (monthBucket (String.substring 0 7 (date t)) txs)) as [b Hb]
    by (apply monthBucket_is_Some; eauto).
  congruence.
Qed.

(** A field of the buckets that holds the total of a part of the group:
    over all buckets it adds up to the number of the sum over that part of
    the list. *)
Lemma monthly_total_whole (sel : MonthlyBucket float -> float)
    (P : Transaction float -> Prop) `{forall t, Decision (P t)} txs md :
  (forall g, sel (groupBucket g) = total (amount <$> filter P g)) ->
  calculateMonthlyData txs = Some md ->
  wholeAmounts txs ->
  integer_valued (total (sel <$> obj_values md))
                 (sumZ (wholeAmount <$> filter P txs)).
Proof.
  intros Hsel Hmd Hw.
  set (zf := fun k => sumZ (wholeAmount <$> filter P (inMonth k txs))).
  assert (Hz : forall k, 0 <= zf k) by
    (intros k; apply (total_filter_whole P (inMonth k txs)),
       wholeAmounts_filter, Hw).
  assert (Hsum : sumZ (zf <$> obj_keys md) = sumZ (wholeAmount <$> filter P txs)).
  { unfold zf.
    rewrite (list_fmap_ext _
      (fun k => sumZ ((fun t => if decide (P t) then wholeAmount t else 0) <$>
                      filter (fun t => String.substring 0 7 (date t) = k) txs))
      (obj_keys md)) by (intros; apply sumZ_filter).
    rewrite (sumZ_by_key (fun t => String.substring 0 7 (date t))).
    - symmetry. apply sumZ_filter.
    - by apply (calculateMonthlyData_NoDup txs).
    - intros t Ht. by apply (calculateMonthlyData_covers txs). }
  rewrite <- Hsum. apply total_integer.
  - unfold obj_values, obj_keys.
    change (map snd md) with (snd <$> md). change (map fst md) with (fst <$> md).
    apply Forall2_fmap, Forall2_fmap, Forall_Forall2_diag, Forall_forall.
    intros [k b] Hin. simpl.
    rewrite (calculateMonthlyData_entries txs md k b Hmd Hin), Hsel.
    apply (total_filter_whole P (inMonth k txs)), wholeAmounts_filter, Hw.
  - rewrite sumZ_abs_nonneg by (apply Forall_fmap, Forall_true; exact Hz).
    rewrite Hsum.
    destruct (total_filter_whole P txs Hw) as [_ Hb].
    destruct (wholeAmounts_bound txs Hw) as [_ Hb']. lia.
Qed.

(** The balances of the buckets add up to the number of the income sum
    minus the sum of the rest. *)
Lemma monthly_balance_whole txs md :
  calculateMonthlyData txs = Some md ->
  wholeAmounts txs ->
  integer_valued (total (balance <$> obj_values md))
    (sumZ (wholeAmount <$> filter (fun t => type t = "income") txs) -
     sumZ (wholeAmount <$> filter (fun t => type t <> "income") txs)).
Proof.
  intros Hmd Hw.
  set (zi := fun k => sumZ (wholeAmount <$>
               filter (fun t => type t = "income") (inMonth k txs))).
  set (zo := fun k => sumZ (wholeAmount <$>
               filter (fun t => type t <> "income") (inMonth k txs))).
  assert (Hgroup : forall k,
    integer_valued (total (incomeAmounts (inMonth k txs))) (zi k) /\
    integer_valued (total (otherAmounts (inMonth k txs))) (zo k) /\
    0 <= zi k /\ 0 <= zo k /\
    zi k + zo k = sumZ (wholeAmount <$> inMonth k txs)).
  { intros k.
    assert (wholeAmounts (inMonth k txs)) as Hk by (by apply wholeAmounts_filter).
    destruct (total_filter_whole (fun t => type t = "income") _ Hk) as [Hi Hbi].
    destruct (total_filter_whole (fun t => type t <> "income") _ Hk) as [Ho Hbo].
    unfold zi, zo.
    split_and!; [done | done | lia | lia | apply sumZ_income_other]. }
  assert (Hcover : forall (f : Transaction float -> Z),
    sumZ ((fun k => sumZ (f <$> inMonth k txs)) <$> obj_keys md) = sumZ (f <$> txs)).
  { intros f. apply (sumZ_by_key (fun t => String.substring 0 7 (date t))).
    - by apply (calculateMonthlyData_NoDup txs).
    - intros t Ht. by apply (calculateMonthlyData_covers txs). }
  assert (Hzi : sumZ (zi <$> obj_keys md) =
                sumZ (wholeAmount <$> filter (fun t => type t = "income") txs)).
  { unfold zi.
    rewrite (list_fmap_ext _ (fun k => sumZ ((fun t =>
               if decide (type t = "income") then wholeAmount t else 0) <$>
               inMonth k txs)) (obj_keys md)) by (intros; apply sumZ_filter).
    rewrite Hcover. symmetry. apply sumZ_filter. }
  assert (Hzo : sumZ (zo <$> obj_keys md) =
                sumZ (wholeAmount <$> filter (fun t => type t <> "income") txs)).
  { unfold zo.
    rewrite (list_fmap_ext _ (fun k => sumZ ((fun t =>
               if decide (type t <> "income") then wholeAmount t else 0) <$>
               inMonth k txs)) (obj_keys md)) by (intros; apply sumZ_filter).
    rewrite Hcover. symmetry. apply sumZ_filter. }
  destruct (wholeAmounts_bound txs Hw) as [_ Hb].
  pose proof (sumZ_income_other txs) as Hio.
  assert (Hsub : sumZ ((fun k => zi k - zo k) <$> obj_keys md) =
    sumZ (zi <$> obj_keys md) - sumZ (zo <$> obj_keys md)).
  { clear. induction (obj_keys md) as [|k l IH]; [done|].
    rewrite !fmap_cons, !sumZ_cons, IH. lia. }
  assert (Habs : sumZ (Z.abs <$> ((fun k => zi k - zo k) <$> obj_keys md)) <=
    sumZ (zi <$> obj_keys md) + sumZ (zo <$> obj_keys md)).
  { clear -Hgroup. induction (obj_keys md) as [|k l IH]; [done|].
    rewrite !fmap_cons, !sumZ_cons.
    destruct (Hgroup k) as (_ & _ & ? & ? & _). lia. }
  rewrite <- Hzi, <- Hzo, <- Hsub. apply total_integer.
  - unfold obj_values, obj_keys.
    change (map snd md) with (snd <$> md). change (map fst md) with (fst <$> md).
    apply Forall2_fmap, Forall2_fmap, Forall_Forall2_diag, Forall_forall.
    intros [k b] Hin. simpl.
    rewrite (calculateMonthlyData_entries txs md k b Hmd Hin). simpl.
    destruct (Hgroup k) as (Hi & Ho & Hzi0 & Hzo0 & Hs).
    assert (sumZ (wholeAmount <$> inMonth k txs) <= sumZ (wholeAmount <$> txs)).
    { apply sumZ_submseteq.
      - apply Forall_fmap. by apply wholeAmounts_bound.
      - apply fmap_submseteq, sublist_submseteq, sublist_filter. }
    apply sub_integer; [done | done | lia..].
  - lia.
Qed.

(** *** Category totals *)

(** On whole numbers [acc || 0] is [acc], and the accumulation of a
    category is the plain total. *)
Lemma foldl_or_zero_whole (xs : list float) (acc : float) (a : Z) :
  Forall isWhole xs ->
  integer_valued acc a -> 0 <= a ->
  a + sumZ (toInteger <$> xs) < 2 ^ 53 ->
  foldl (fun acc x => num_add (num_or_zero acc) x) acc xs =
  foldl num_add acc xs.
Proof.
  intros Hw. revert acc a.
  induction Hw as [|y ys [Hy Hy0] Hw IH]; intros acc a Hacc Ha0 Hb; [done|].
  rewrite fmap_cons, sumZ_cons in Hb.
  pose proof (wholeNumbers_nonneg ys Hw) as Hn. apply sumZ_nonneg in Hn.
  cbn [foldl]. simpl num_or_zero.
  rewrite (integer_valued_or_zero acc a Hacc) by lia.
  apply (IH _ (a + toInteger y)); [|lia|lia].
  apply add_integer; [done | done | lia..].
Qed.

Lemma categoryTotal_whole (x : float) (xs : list float) :
  wholeNumbers (x :: xs) -> categoryTotal (x :: xs) = Some (total (x :: xs)).
Proof.
  intros [Hw Hb]. unfold categoryTotal, total. cbn [foldl]. f_equal.
  apply Forall_cons in Hw as [[Hx Hx0] Hw].
  rewrite fmap_cons, sumZ_cons in Hb.
  pose proof (wholeNumbers_nonneg xs Hw) as Hn. apply sumZ_nonneg in Hn.
  apply (foldl_or_zero_whole xs _ (0 + toInteger x)); [done| |lia|lia].
  apply add_integer; [apply integer_valued_zero | done | simpl; lia..].
Qed.

(** Totals of groups add up to the number of the sum over the list: for
    pairwise distinct keys that cover the selected transactions, and
    values that are the totals of the selected transactions of each key. *)
Lemma grouped_total_whole (key : Transaction float -> string)
    (P : Transaction float -> Prop) `{forall t, Decision (P t)} txs
    (keys : list string) (vs : list float) :
  wholeAmounts txs ->
  NoDup keys ->
  (forall t, t ∈ txs -> P t -> key t ∈ keys) ->
  Forall2 (fun k v =>
    v = total (amount <$> filter (fun t => P t /\ key t = k) txs)) keys vs ->
  integer_valued (total vs) (sumZ (wholeAmount <$> filter P txs)).
Proof.
  intros Hw Hnd Hcover Hvs.
  set (zf := fun k => sumZ (wholeAmount <$> filter (fun t => P t /\ key t = k) txs)).
  assert (Hz : forall k, 0 <= zf k) by
    (intros k; apply (total_filter_whole (fun t => P t /\ key t = k) txs Hw)).
  assert (Hsum : sumZ (zf <$> keys) = sumZ (wholeAmount <$> filter P txs)).
  { unfold zf. rewrite <- (sumZ_by_key key wholeAmount keys (filter P txs) Hnd).
    - apply (f_equal sumZ), list_fmap_ext. intros _ k _. simpl.
      rewrite list_filter_filter. do 2 f_equal.
      apply list_filter_iff. tauto.
    - intros t [? ?]%list_elem_of_filter. by apply Hcover. }
  rewrite <- Hsum. apply total_integer.
  - apply Forall2_flip, Forall2_fmap_l.
    eapply Forall2_impl; [exact Hvs|]. intros k v ->. simpl.
    apply (total_filter_whole (fun t => P t /\ key t = k) txs Hw).
  - rewrite sumZ_abs_nonneg by (apply Forall_fmap, Forall_true; exact Hz).
    rewrite Hsum.
    destruct (total_filter_whole P txs Hw) as [_ Hb].
    destruct (wholeAmounts_bound txs Hw) as [_ Hb']. lia.
Qed.

(** With labels that are not inherited, every category value is a
    number, the total of the amounts of its expense-type transactions, and
    the values add up to the number of the sum of the expense-type
    amounts. *)
Lemma categories_total_whole txs :
  wholeAmounts txs -> plainLabels txs ->
  obj_values (expensesByCategory txs) =
    CNumber <$> categoryNumbers (obj_values (expensesByCategory txs)) /\
  integer_valued (total (categoryNumbers (obj_values (expensesByCategory txs))))
    (sumZ (wholeAmount <$> filter (fun t => type t = "expense") txs)).
Proof.
  intros Hw Hl.
  assert (Hentry : Forall (fun e : string * CategoryValue float =>
    e.2 = CNumber (total (amount <$>
            filter (fun t => type t = "expense" /\ category t = e.1) txs)))
    (expensesByCategory txs)).
  { apply Forall_forall. intros [c v] Hin. simpl.
    pose proof (obj_get_elem _ c v (expensesByCategory_NoDup txs) Hin) as Hg.
    assert (c ∈ obj_keys (expensesByCategory txs)) as Hk
      by (by apply (list_elem_of_fmap_2 fst) in Hin).
    apply expensesByCategory_keys_elem in Hk as (t & Ht & Hty & Hc & _).
    unfold plainLabels in Hl. rewrite Forall_forall in Hl.
    pose proof (Hl t Ht Hty) as Hplain. rewrite Hc in Hplain.
    rewrite (expensesByCategory_get txs c Hplain) in Hg.
    unfold categoryAmounts in Hg.
    destruct (amount <$> filter _ txs) as [|x xs] eqn:E; [done|].
    rewrite categoryTotal_whole in Hg; [by injection Hg as <-|].
    rewrite <- E.
    apply (wholeAmounts_filter (fun t => type t = "expense" /\ category t = c)),
      Hw. }
  unfold obj_values.
  change (map snd (expensesByCategory txs)) with (snd <$> expensesByCategory txs).
  split.
  - clear -Hentry. induction Hentry as [|[c v] o Hv _ IH]; [done|].
    simpl in Hv. subst v. rewrite fmap_cons. unfold categoryNumbers in *.
    cbn [omap list_omap snd]. rewrite fmap_cons. f_equal. exact IH.
  - apply (grouped_total_whole category (fun t => type t = "expense") txs
             (obj_keys (expensesByCategory txs))); [done| | |].
    + apply expensesByCategory_NoDup.
    + intros t Ht Hty. apply expensesByCategory_keys_elem.
      exists t. split_and!; [done..|].
      unfold plainLabels in Hl. rewrite Forall_forall in Hl.
      intros Hp. apply (Hl t Ht Hty). rewrite Hp. apply proto_inherited.
    + unfold obj_keys.
      change (map fst (expensesByCategory txs)) with (fst <$> expensesByCategory txs).
      clear -Hentry. induction Hentry as [|[c v] o Hv _ IH]; [constructor|].
      simpl in Hv. subst v. rewrite !fmap_cons. simpl. by constructor.
Qed.

(** *** Permutations *)





End WholeAggregation.

(** * Facts about the sort and the chart series *)
Section SortFacts.
Context {A : Type} (gt : A -> A -> bool).
Implicit Types (x : A) (l : list A).

Lemma insertSorted_perm x l : insertSorted gt x l ≡ₚ x :: l.
Proof.
  induction l as [|y l IH]; simpl; [done|].
  destruct (gt x y); [|done]. rewrite IH. apply perm_swap.
Qed.

Lemma arraySort_perm l : arraySort gt l ≡ₚ l.
Proof.
  induction l as [|x l IH]; simpl; [done|].
  by rewrite insertSorted_perm, IH.
Qed.

(** When no two elements compare positive, nothing moves. *)
Lemma arraySort_ties l :
  (forall a b, a ∈ l -> b ∈ l -> gt a b = false) -> arraySort gt l = l.
Proof.
  induction l as [|x l IH]; intros Hties; simpl; [done|].
  rewrite IH by (intros; apply Hties; by apply elem_of_cons; right).
  destruct l as [|y l]; simpl; [done|].
  rewrite Hties; [done | apply elem_of_cons; by left |].
  apply elem_of_cons; right; apply elem_of_cons; by left.
Qed.

(** A comparator that orders the elements satisfying [ok] by an integer
    key. *)
Variable ok : A -> Prop.
Variable key : A -> Z.
Hypothesis gt_key : forall a b, ok a -> ok b -> gt a b = (key b <? key a)%Z.

Lemma insertSorted_sorted x l :
  ok x -> Forall ok l ->
  StronglySorted (fun a b => key a <= key b)%Z l ->
  StronglySorted (fun a b => key a <= key b)%Z (insertSorted gt x l).
Proof.
  intros Hx Hok Hs. induction Hs as [|y l Hs IH Hy]; simpl.
  - repeat constructor.
  - apply Forall_cons in Hok as [Hoky Hok].
    rewrite (gt_key x y Hx Hoky). destruct (Z.ltb_spec (key y) (key x)).
    + constructor; [by apply IH|].
      rewrite insertSorted_perm. constructor; [lia | done].
    + constructor; [by constructor|]. constructor; [done|].
      eapply Forall_impl; [exact Hy|]. simpl. intros; lia.
Qed.

Lemma arraySort_sorted l :
  Forall ok l ->
  StronglySorted (fun a b => key a <= key b)%Z (arraySort gt l).
Proof.
  induction 1 as [|x l Hx Hl IH]; simpl; [constructor|].
  apply insertSorted_sorted; [done | by rewrite arraySort_perm | done].
Qed.

Lemma NoDup_fmap_eq l x y :
  NoDup (key <$> l) -> x ∈ l -> y ∈ l -> key x = key y -> x = y.
Proof.
  induction l as [|z l IH]; simpl; [by intros _ ?%elem_of_nil|].
  rewrite NoDup_cons. intros [Hz Hnd] Hx Hy Hk.
  apply elem_of_cons in Hx as [->|Hx]; apply elem_of_cons in Hy as [->|Hy].
  - done.
  - destruct Hz. rewrite Hk. by apply list_elem_of_fmap_2.
  - destruct Hz. rewrite <- Hk. by apply list_elem_of_fmap_2.
  - by apply IH.
Qed.

(** With pairwise distinct keys the sorted array does not depend on the
    order of the input. *)
Lemma arraySort_order_independent l l' :
  Forall ok l -> NoDup (key <$> l) -> l ≡ₚ l' ->
  arraySort gt l' = arraySort gt l.
Proof.
  intros Hok Hnd Hp.
  apply (StronglySorted_unique_strong (fun a b => key a <= key b)%Z).
  - intros x y Hx Hy H1 H2. apply (NoDup_fmap_eq l); [done | | | lia].
    + by rewrite arraySort_perm, <- Hp in Hx.
    + by rewrite arraySort_perm in Hy.
  - apply arraySort_sorted. by rewrite <- Hp.
  - by apply arraySort_sorted.
  - by rewrite !arraySort_perm.
Qed.
End SortFacts.

Section ChartFacts.
Context {num : Type} (host : DateHost).
Implicit Types (md : MonthlyData num) (e : ChartEntry num).

Lemma sortsAfter_times e1 e2 :
  is_Some (labelTime host (name e1)) ->
  is_Some (labelTime host (name e2)) ->
  sortsAfter host e1 e2 = (entryTime host e2 <? entryTime host e1)%Z.
Proof.
  intros [t1 H1] [t2 H2]. unfold sortsAfter, chartCompare, entryTime.
  rewrite H1, H2. simpl.
  destruct (Z.ltb_spec 0 (t1 - t2)), (Z.ltb_spec t2 t1); done || lia.
Qed.

(** On a host that reads none of the labels, the series keeps the order
    in which the month keys were first assigned. *)
Lemma monthlyChartData_unread md :
  Forall (fun entry => labelTime host (monthLabel host entry.1) = None) md ->
  monthlyChartData host md = chartEntry host <$> md.
Proof.
  intros Hnone. unfold monthlyChartData. apply arraySort_ties.
  intros a b Ha _. apply list_elem_of_fmap in Ha as (entry & -> & Hin).
  rewrite Forall_forall in Hnone. specialize (Hnone _ Hin).
  unfold sortsAfter, chartCompare. simpl. by rewrite Hnone.
Qed.

(** On a host that reads every label, the series is a rearrangement of
    the entries in ascending order of the times read. *)
Lemma monthlyChartData_sorted md :
  Forall (fun entry => is_Some (labelTime host (monthLabel host entry.1))) md ->
  monthlyChartData host md ≡ₚ chartEntry host <$> md /\
  StronglySorted (fun e1 e2 => entryTime host e1 <= entryTime host e2)%Z
                 (monthlyChartData host md).
Proof.
  intros Hall. split; [apply arraySort_perm|].
  apply (arraySort_sorted _ (fun e => is_Some (labelTime host (name e)))).
  - apply sortsAfter_times.
  - apply Forall_fmap. eapply Forall_impl; [exact Hall | done].
Qed.

(** If moreover different months are read as different times, the
    series does not depend on the order of the keys of the object. *)
Lemma monthlyChartData_order_independent md md' :
  Forall (fun entry => is_Some (labelTime host (monthLabel host entry.1))) md ->
  NoDup ((fun entry => entryTime host (chartEntry host entry)) <$> md) ->
  md ≡ₚ md' ->
  monthlyChartData host md' = monthlyChartData host md.
Proof.
  intros Hall Hnd Hp. unfold monthlyChartData.
  apply (arraySort_order_independent _
           (fun e => is_Some (labelTime host (name e))) (entryTime host)).
  - apply sortsAfter_times.
  - apply Forall_fmap. eapply Forall_impl; [exact Hall | done].
  - by rewrite <- list_fmap_compose.
  - by rewrite Hp.
Qed.
End ChartFacts.

(** * Facts about the transaction service *)
Section ServiceFacts.
Variable host : Host.
Implicit Types (body : Body) (st : Store) (id oid newId : string).
Implicit Types (f : Fields) (d : Document).

Lemma castPath_Some {A} (cast : json -> option (option A)) p body v :
  obj_get p body = Some v ->
  castPath cast p body = (fun a => Some a) <$> cast v.
Proof. intros Hv. unfold castPath. rewrite Hv. by destruct (cast v). Qed.



Lemma castFields_intro body i de a ty c dt v :
  castPath (castId host) "_id" body = Some i ->
  castPath (castString host) "description" body = Some de ->
  castPath (castNumber host) "amount" body = Some a ->
  castPath (castString host) "type" body = Some ty ->
  castPath (castString host) "category" body = Some c ->
  castPath (castDate host) "date" body = Some dt ->
  castPath (castNumber host) "__v" body = Some v ->
  castFields host body =
    Some {| f_id := i; f_description := de; f_amount := a; f_type := ty;
            f_category := c; f_date := dt |}.
Proof.
  intros Hi Hde Ha Hty Hc Hdt Hv. unfold castFields.
  by rewrite Hi, Hde, Ha, Hty, Hc, Hdt, Hv.
Qed.

Lemma castFields_amount body v :
  obj_get "amount" body = Some v -> castNumber host v = None ->
  castFields host body = None.
Proof.
  intros Hv Hc. unfold castFields.
  rewrite (castPath_Some (castNumber host) "amount" body v Hv), Hc. simpl.
  destruct (castPath (castId host) "_id" body); simpl; [|done].
  by destruct (castPath (castString host) "description" body).
Qed.

Lemma castBody_plain body :
  plainBody body = true -> castBody host body = castFields host body.
Proof. intros Hp. unfold castBody. by rewrite Hp. Qed.

(** The three outcomes of [POST]. *)
Lemma POST_cases newId body st :
  POST host newId body st = (st, Thrown ValidationError) \/
  POST host newId body st = (st, Thrown DuplicateKey) \/
  exists f, castBody host body = Some f /\
    st !! doc_id (newDocument newId f) = None /\
    POST host newId body st =
      (<[doc_id (newDocument newId f) := newDocument newId f]> st,
       Responded (json_response (PDocument (newDocument newId f)))).
Proof.
  unfold POST. destruct (castBody host body) as [f|]; [|by left].
  destruct (st !! doc_id (newDocument newId f)) eqn:E; [by right; left|].
  right; right. by exists f.
Qed.

(** The outcomes of [PUT]: a throw, [null], or one document rewritten
    under its id. *)
Lemma PUT_cases id body st :
  (exists e, PUT host id body st = (st, Thrown e)) \/
  PUT host id body st = (st, Responded (json_response PNull)) \/
  exists oid d d', castObjectId id = Some oid /\ st !! oid = Some d /\
    doc_id d' = doc_id d /\
    PUT host id body st =
      (<[oid := d']> st, Responded (json_response (PDocument d'))).
Proof.
  unfold PUT. destruct (castObjectId id) as [oid|]; [|left; by eexists].
  destruct (if plainBody body then _ else _) as [write|]; [|left; by eexists].
  destruct (st !! oid) as [d|] eqn:E; [|by right; left].
  destruct (write d) as [d'|e]; [|left; by eexists].
  case_decide as Hd; [|left; by eexists].
  right; right. by exists oid, d, d'.
Qed.

(** [PUT] on a body whose keys are plain. *)
Lemma PUT_plain id oid body f st :
  castObjectId id = Some oid ->
  plainBody body = true ->
  castFields host body = Some f ->
  PUT host id body st =
    match st !! oid with
    | None => (st, Responded (json_response PNull))
    | Some d =>
        match setFields oid f d with
        | inl d' => (<[oid := d']> st, Responded (json_response (PDocument d')))
        | inr e => (st, Thrown e)
        end
    end.
Proof.
  intros Hid Hp Hf. unfold PUT. rewrite Hid, Hp, Hf. simpl.
  destruct (st !! oid) as [d|]; [|done].
  unfold setFields. destruct (f_id f) as [[oid'|]|]; [|done|].
  - case_decide; [|done]. by rewrite decide_True.
  - by rewrite decide_True.
Qed.

Lemma PUT_malformed_id id body st :
  castObjectId id = None -> PUT host id body st = (st, Thrown CastError).
Proof. intros Hid. unfold PUT. by rewrite Hid. Qed.

Lemma DELETE_malformed_id id st :
  castObjectId id = None -> DELETE id st = (st, Thrown CastError).
Proof. intros Hid. unfold DELETE. by rewrite Hid. Qed.

Lemma DELETE_idempotent id st :
  (DELETE id (DELETE id st).1).1 = (DELETE id st).1.
Proof.
  unfold DELETE. destruct (castObjectId id) as [oid|] eqn:E; simpl.
  - by rewrite delete_delete_eq.
  - done.
Qed.

Lemma applyUpdate_idemp f d : applyUpdate f (applyUpdate f d) = applyUpdate f d.
Proof.
  unfold applyUpdate. simpl.
  by destruct (f_description f), (f_amount f), (f_type f), (f_category f),
              (f_date f).
Qed.

(** *** Object ids *)








(** *** The sort of [find] *)

Lemma dateBefore_sorted (l : list Document) :
  StronglySorted (fun a b => dateBefore (doc_date a) (doc_date b) = false)
    (arraySort (fun a b => dateBefore (doc_date a) (doc_date b)) l).
Proof.
  assert (forall a b c : option Z, dateBefore a b = false ->
            dateBefore b c = false -> dateBefore a c = false) as Htrans.
  { intros [x|] [y|] [z|]; simpl; try done.
    rewrite !Z.ltb_ge. lia. }
  assert (forall a b : option Z, dateBefore a b = true -> dateBefore b a = false)
    as Hasym.
  { intros [x|] [y|]; simpl; try done. rewrite Z.ltb_lt, Z.ltb_ge. lia. }
  induction l as [|x l IH]; simpl; [constructor|].
  set (gt := fun a b : Document => dateBefore (doc_date a) (doc_date b)) in *.
  revert IH. generalize (arraySort gt l). clear l.
  intros l Hs. induction Hs as [|y l Hs IH Hy]; simpl.
  - repeat constructor.
  - destruct (gt x y) eqn:E.
    + constructor; [done|]. rewrite insertSorted_perm.
      constructor; [by apply Hasym | done].
    + constructor; [by constructor|]. constructor; [done|].
      eapply Forall_impl; [exact Hy|]. simpl. intros z Hz.
      by apply (Htrans _ (doc_date y)).
Qed.

Lemma StronglySorted_lookup {A} (R : A -> A -> Prop) (l : list A) :
  StronglySorted R l ->
  forall (i j : nat) (a b : A),
    (i < j)%nat -> l !! i = Some a -> l !! j = Some b -> R a b.
Proof.
  induction 1 as [|x l Hs IH Hx]; intros i j a b Hij Ha Hb; [done|].
  destruct j as [|j]; [lia|]. simpl in Hb. destruct i as [|i]; simpl in Ha.
  - injection Ha as <-. rewrite Forall_forall in Hx. apply Hx.
    by apply list_elem_of_lookup_2 in Hb.
  - apply (IH i j); [lia | done | done].
Qed.

Lemma findAllByDateDescending_perm st :
  findAllByDateDescending st ≡ₚ (map_to_list st).*2.
Proof. apply arraySort_perm. Qed.
End ServiceFacts.

(** * More facts about the aggregation *)

Lemma firstOccurrences_snoc l k :
  firstOccurrences (l ++ [k]) =
  if decide (k ∈ firstOccurrences l) then firstOccurrences l
  else firstOccurrences l ++ [k].
Proof. unfold firstOccurrences. by rewrite foldl_snoc. Qed.

Lemma obj_keys_set_firstOccurrences {V} (o : Obj V) k v l :
  arrayIndex k = None ->
  obj_keys o = firstOccurrences l ->
  obj_keys (obj_set k v o) = firstOccurrences (l ++ [k]).
Proof.
  intros Hi Ho. rewrite firstOccurrences_snoc, <- Ho.
  destruct (obj_get k o) eqn:E.
  - rewrite obj_keys_set_old by eauto. rewrite decide_True; [done|].
    destruct (decide (k ∈ obj_keys o)) as [|Hn]; [done|].
    apply obj_get_None in Hn. congruence.
  - rewrite obj_set_new_plain by done. rewrite decide_False by (by apply obj_get_None).
    unfold obj_keys. by rewrite map_app.
Qed.



Lemma NoDup_fmap_elem_eq {A B} (g : A -> B) (l : list A) x y :
  NoDup (g <$> l) -> x ∈ l -> y ∈ l -> g x = g y -> x = y.
Proof.
  induction l as [|z l IH]; simpl; [by intros _ ?%elem_of_nil|].
  rewrite NoDup_cons. intros [Hz Hnd] Hx Hy Hk.
  apply elem_of_cons in Hx as [->|Hx]; apply elem_of_cons in Hy as [->|Hy].
  - done.
  - destruct Hz. rewrite Hk. by apply list_elem_of_fmap_2.
  - destruct Hz. rewrite <- Hk. by apply list_elem_of_fmap_2.
  - by apply IH.
Qed.

Section AggregationFacts2.
Context {num : Type} `{Number num}.
Implicit Types (t : Transaction num) (txs : list (Transaction num)).

Lemma expenseAmounts_snoc txs t :
  expenseAmounts (txs ++ [t]) =
  if isExpense t then expenseAmounts txs ++ [amount t] else expenseAmounts txs.
Proof.
  unfold expenseAmounts. rewrite filter_app, fmap_app, filter_cons, filter_nil.
  destruct (isExpense t) eqn:E.
  - apply isExpense_true in E. by rewrite decide_True.
  - apply isExpense_false in E. rewrite decide_False by done. simpl.
    by rewrite app_nil_r.
Qed.

Lemma inMonth_deleteTransaction k id txs :
  inMonth k (deleteTransaction id txs) =
  filter (fun t => _id t <> id) (inMonth k txs).
Proof.
  unfold inMonth, deleteTransaction. rewrite !list_filter_filter.
  apply list_filter_iff. tauto.
Qed.

Lemma filter_all {A} (P : A -> Prop) `{forall x, Decision (P x)} (l : list A) :
  Forall P l -> filter P l = l.
Proof.
  induction 1 as [|x l Hx Hl IH]; [done|].
  by rewrite filter_cons_True, IH.
Qed.
End AggregationFacts2.

(** * The aggregation engine: properties *)

Lemma float_neq (x y : float) :
  PrimFloat.eqb x y = false -> PrimFloat.eqb y y = true -> x <> y.
Proof. intros Hxy Hy ->. congruence. Qed.

Lemma example_txs_whole : wholeAmounts example_txs.
Proof.
  split; [|by vm_compute].
  repeat (apply List.Forall_cons; [split; [reflexivity | by vm_compute]|]).
  apply List.Forall_nil.
Qed.

Lemma example_txs_plainDates : plainDates example_txs.
Proof.
  repeat (apply List.Forall_cons; [by vm_compute|]). apply List.Forall_nil.
Qed.

Lemma example_txs_typed : Forall typed example_txs.
Proof.
  unfold example_txs, typed.
  repeat (apply List.Forall_cons; [simpl; auto|]). apply List.Forall_nil.
Qed.

(** C1 (as stated, on JavaScript numbers).  For incomes of 0.3 and 0.2
    in January and an income of 0.1 and an expense of 0.3 in February, the
    annual income is [(0.3 + 0.1) + 0.2 = 0.6000000000000001] while the
    monthly incomes add up to [0.5 + 0.1 = 0.6], and the annual balance is
    [0.3000000000000001] while the monthly balances add up to
    [0.30000000000000004]: neither the balances nor the incomes of the
    monthly buckets add up to the annual figure.  With a transaction of
    type ["refund"], which counts as an expense, the annual balance is 745
    and not the income-type sum minus the expense-type sum, 750.  And for a
    transaction whose date starts with [valueOf] the monthly aggregation
    throws, so that there are no buckets to add up. *)
Lemma annual_totals_rounding :
  (exists md, calculateMonthlyData rounding_txs = Some md /\
     annual_balance (calculateAnnualData rounding_txs) <>
       total (balance <$> obj_values md) /\
     total (income <$> obj_values md) <>
       annual_income (calculateAnnualData rounding_txs)) /\
  annual_balance (calculateAnnualData (example_txs ++ [refund_tx])) <>
    num_sub (total (incomeAmounts (example_txs ++ [refund_tx])))
            (total (expenseAmounts (example_txs ++ [refund_tx]))) /\
  calculateMonthlyData (example_txs ++ [valueOf_tx]) = None.
Proof.
  split_and!.
  - eexists. split; [reflexivity|]. split; apply float_neq; reflexivity.
  - apply float_neq; reflexivity.
  - reflexivity.
Qed.

(** C1 (amended), on JavaScript numbers.  When every transaction is
    income-type or expense-type, the annual balance is the sum of the
    income amounts minus the sum of the expense amounts.  When the amounts
    are whole numbers, not negative, that add up to less than [2^53], and
    no date starts with [valueOf], the monthly aggregation returns, the
    annual balance is the sum of the balances of the monthly buckets, and
    the incomes of the monthly buckets add up to the annual income. *)
Theorem annual_totals (txs : list (Transaction float)) :
  (Forall typed txs ->
   annual_balance (calculateAnnualData txs) =
     num_sub (total (incomeAmounts txs)) (total (expenseAmounts txs))) /\
  (wholeAmounts txs -> plainDates txs ->
   exists md, calculateMonthlyData txs = Some md /\
     annual_balance (calculateAnnualData txs) =
       total (balance <$> obj_values md) /\
     total (income <$> obj_values md) =
       annual_income (calculateAnnualData txs)).
Proof.
  split.
  - intros Ht. by rewrite calculateAnnualData_eq, (otherAmounts_typed txs Ht).
  - intros Hw Hd.
    destruct (calculateMonthlyData_returns txs Hd) as [md Hmd].
    exists md. split; [done|].
    destruct (calculateAnnualData_whole txs Hw) as (Hi & _ & Hb). split.
    + eapply integer_valued_inj; [exact Hb|].
      by apply monthly_balance_whole.
    + eapply integer_valued_inj; [|exact Hi].
      apply (monthly_total_whole income (fun t => type t = "income")); done.
Qed.

Lemma annual_totals_witness :
  Forall typed example_txs /\ wholeAmounts example_txs /\
  plainDates example_txs /\
  annual_balance (calculateAnnualData example_txs) = 750%float /\
  exists md, calculateMonthlyData example_txs = Some md /\
    total (balance <$> obj_values md) = 750%float /\
    total (income <$> obj_values md) = 1000%float.
Proof.
  destruct (annual_totals example_txs) as [Ha Hm].
  destruct (Hm example_txs_whole example_txs_plainDates) as (md & Hmd & Hb & Hi).
  split; [exact example_txs_typed|]. split; [exact example_txs_whole|].
  split; [exact example_txs_plainDates|]. split; [reflexivity|].
  exists md. split; [exact Hmd|]. split.
  - rewrite <- Hb. reflexivity.
  - rewrite Hi. reflexivity.
Defined.










(** C5: for the empty list the annual aggregation returns income 0,
    expenses 0 and balance [0 - 0 = 0], the monthly aggregation returns an
    object without keys, and the category totals are the empty array. *)
Theorem empty_aggregates :
  calculateAnnualData (num := float) [] =
    {| annual_income := 0%float; annual_expenses := 0%float;
       annual_balance := 0%float |} /\
  calculateMonthlyData (num := float) [] = Some [] /\
  expensesByCategory (num := float) [] = [].
Proof. split_and!; reflexivity. Qed.




(** * The transaction service: properties *)

(** C7 (as stated): a create request whose type is ["transfer"], neither
    of the two declared values, is not rejected: the schema declares [type]
    as a plain [String], so the document is stored with that type and sent
    back with status 200.  And a create request whose amount is ["abc"] is
    not answered with a client error: [save()] throws, the handler sends no
    response, and the framework answers with status 500. *)
Lemma POST_stores_undeclared_type :
  obj_get "type" transfer_body = Some (JStr "transfer") /\
  "transfer" <> "income" /\ "transfer" <> "expense" /\
  POST idle_host sample_id transfer_body ∅ =
    ({[ sample_id := transfer_document ]},
     Responded {| status := 200; payload := PDocument transfer_document |}) /\
  POST idle_host sample_id bad_amount_body ∅ = (∅, Thrown ValidationError).
Proof.
  split_and!; [reflexivity | discriminate | discriminate | reflexivity |
               reflexivity].
Qed.

(** C7 (amended), for request bodies whose keys are paths of the schema,
    as the component sends them.  A create request
    whose amount does not cast to a number is not stored: [save()] throws a
    validation error and the store is unchanged.  The type is not checked:
    a create request whose type is any string, and whose other paths cast,
    is stored under its id, if that is free, with that very string as its
    type, and the stored document is the answer, with status 200. *)
Theorem POST_validation (host : Host) (newId : string) (st : Store) :
  (forall body v,
     plainBody body = true ->
     obj_get "amount" body = Some v ->
     castNumber host v = None ->
     POST host newId body st = (st, Thrown ValidationError)) /\
  (forall body s i de a c dt v,
     plainBody body = true ->
     obj_get "type" body = Some (JStr s) ->
     castPath (castId host) "_id" body = Some i ->
     castPath (castString host) "description" body = Some de ->
     castPath (castNumber host) "amount" body = Some a ->
     castPath (castString host) "category" body = Some c ->
     castPath (castDate host) "date" body = Some dt ->
     castPath (castNumber host) "__v" body = Some v ->
     forall d,
       d = newDocument newId
             {| f_id := i; f_description := de; f_amount := a;
                f_type := Some (Some s); f_category := c; f_date := dt |} ->
       st !! doc_id d = None ->
       POST host newId body st =
         (<[doc_id d := d]> st,
          Responded {| status := 200; payload := PDocument d |}) /\
       doc_type d = Some s).
Proof.
  split.
  - intros body v Hp Hv Hc. unfold POST.
    by rewrite castBody_plain, (castFields_amount host body v Hv Hc).
  - intros body s i de a c dt v Hp Hty Hi Hde Ha Hc Hdt Hv d -> Hfresh.
    assert (castPath (castString host) "type" body = Some (Some (Some s))) as Hs.
    { by rewrite (castPath_Some _ _ _ _ Hty). }
    unfold POST.
    rewrite castBody_plain,
      (castFields_intro host body _ _ _ _ _ _ _ Hi Hde Ha Hs Hc Hdt Hv) by done.
    simpl in *. by rewrite Hfresh.
Qed.

Lemma POST_validation_witness :
  POST idle_host sample_id bad_amount_body sample_store =
    (sample_store, Thrown ValidationError) /\
  POST idle_host sample_id transfer_body ∅ =
    ({[ sample_id := transfer_document ]},
     Responded {| status := 200; payload := PDocument transfer_document |}) /\
  doc_type transfer_document = Some "transfer".
Proof.
  split.
  - exact (proj1 (POST_validation idle_host sample_id sample_store)
             bad_amount_body (JStr "abc") eq_refl eq_refl eq_refl).
  - exact (proj2 (POST_validation idle_host sample_id ∅)
             transfer_body "transfer" None (Some (Some "gift"))
             (Some (Some 12%float)) (Some (Some "misc")) None None
             eq_refl eq_refl eq_refl eq_refl eq_refl eq_refl eq_refl eq_refl
             transfer_document eq_refl eq_refl).
Defined.




(** C9 (as stated): the id ["abc"] is absent from the empty store, yet
    delete-by-id errors on it: the id does not cast to an object id and the
    query throws instead of answering with the confirmation message. *)
Lemma DELETE_malformed_id_throws :
  (∅ : Store) !! "abc" = None /\
  DELETE "abc" ∅ = (∅, Thrown CastError).
Proof. split; reflexivity. Qed.

(** C9 (amended): for an id that is a well-formed object id and absent
    from the store, delete-by-id answers with the confirmation message and
    leaves the store, and so the number of records, unchanged; and for
    every id, deleting twice leaves the store as deleting once does. *)
Theorem DELETE_absent (id oid : string) (st : Store) :
  castObjectId id = Some oid ->
  st !! oid = None ->
  DELETE id st =
    (st, Responded {| status := 200;
                      payload := PMessage "Transaction deleted successfully" |}) /\
  size (DELETE id st).1 = size st /\
  (forall id' st', (DELETE id' (DELETE id' st').1).1 = (DELETE id' st').1).
Proof.
  intros Hid Hst.
  assert (DELETE id st =
    (st, Responded {| status := 200;
                      payload := PMessage "Transaction deleted successfully" |}))
    as Heq by (unfold DELETE; by rewrite Hid, delete_id).
  split_and!; [done | by rewrite Heq | apply DELETE_idempotent].
Qed.

Lemma DELETE_absent_witness :
  castObjectId other_id = Some other_id /\
  sample_store !! other_id = None /\
  DELETE other_id sample_store =
    (sample_store,
     Responded {| status := 200;
                  payload := PMessage "Transaction deleted successfully" |}).
Proof.
  split; [reflexivity|]. split; [reflexivity|].
  exact (proj1 (DELETE_absent other_id other_id sample_store eq_refl eq_refl)).
Defined.

(** * The chart series: properties *)

(** On the English host the series of the two sample months is ascending,
    whichever way round the transactions come. *)
Example monthlyChartData_english :
  fmap name <$> (monthlyChartData english_host <$>
                   calculateMonthlyData newest_first_txs)
    = Some ["Jan 2024"; "Feb 2024"] /\
  fmap name <$> (monthlyChartData english_host <$>
                   calculateMonthlyData oldest_first_txs)
    = Some ["Jan 2024"; "Feb 2024"].
Proof. split; reflexivity. Qed.

(** C6 (the code at the failing input): on the Chinese host the labels
    are not read back as dates, every comparison is [NaN], and the sort
    moves nothing.  For the transactions as the server lists them, the
    newer first, the series shows February 2024 before January 2024; for
    the same transactions the other way round it shows January first. *)
Theorem monthlyChartData_unread_labels :
  monthlyChartData chinese_host <$> calculateMonthlyData newest_first_txs =
    Some [ {| name := "2024年2月"; chart_income := 0%float;
              chart_expenses := 50%float; chart_balance := (-50)%float |};
           {| name := "2024年1月"; chart_income := 1000%float;
              chart_expenses := 0%float; chart_balance := 1000%float |} ] /\
  monthlyChartData chinese_host <$> calculateMonthlyData oldest_first_txs =
    Some [ {| name := "2024年1月"; chart_income := 1000%float;
              chart_expenses := 0%float; chart_balance := 1000%float |};
           {| name := "2024年2月"; chart_income := 0%float;
              chart_expenses := 50%float; chart_balance := (-50)%float |} ].
Proof. split; reflexivity. Qed.

(** * The transaction service: further properties *)

(** X2: every response that [POST], [PUT] or [DELETE] sends has status
    200, also the [null] of an edit that found nothing and the message of a
    delete that removed nothing. *)
Theorem responses_have_status_200 (host : Host) (newId id : string)
    (body : Body) (st st' : Store) (r : Response) :
  POST host newId body st = (st', Responded r) \/
  PUT host id body st = (st', Responded r) \/
  DELETE id st = (st', Responded r) ->
  status r = 200%nat.
Proof.
  intros [Hp | [Hp | Hp]].
  - destruct (POST_cases host newId body st) as [H | [H | (f & _ & _ & H)]];
      rewrite H in Hp; by inversion Hp.
  - destruct (PUT_cases host id body st)
      as [[e' H] | [H | (oid & d & d' & _ & _ & _ & H)]];
      rewrite H in Hp; by inversion Hp.
  - unfold DELETE in Hp. destruct (castObjectId id); by inversion Hp.
Qed.

Lemma responses_have_status_200_witness :
  PUT idle_host other_id edit_body sample_store =
    (sample_store, Responded {| status := 200; payload := PNull |}) /\
  status {| status := 200; payload := PNull |} = 200%nat.
Proof.
  split; [reflexivity|].
  exact (responses_have_status_200 idle_host other_id other_id edit_body
           sample_store sample_store {| status := 200; payload := PNull |}
           (or_intror (or_introl eq_refl))).
Defined.





(** X5: an edit never adds and never removes a record: whatever the id
    and the body, the store after [PUT] holds the same ids, and as many
    records, as before (there is no upsert). *)
Theorem PUT_keeps_record_set (host : Host) (id : string) (body : Body)
    (st : Store) :
  dom (PUT host id body st).1 = dom st /\
  size (PUT host id body st).1 = size st.
Proof.
  destruct (PUT_cases host id body st)
    as [[e H] | [H | (oid & d & d' & _ & Hd & _ & H)]]; rewrite H; simpl;
    [done..|].
  split.
  - by apply dom_insert_lookup_L.
  - by apply map_size_insert_Some.
Qed.

(** X6: an edit touches no record but the one it addresses: every id
    other than the object id of the request reads after [PUT] as it read
    before. *)
Theorem PUT_other_records (host : Host) (id k : string) (body : Body)
    (st : Store) :
  castObjectId id <> Some k ->
  (PUT host id body st).1 !! k = st !! k.
Proof.
  intros Hk.
  destruct (PUT_cases host id body st)
    as [[e H] | [H | (oid & d & d' & Hid & _ & _ & H)]]; rewrite H; simpl;
    [done..|].
  apply lookup_insert_ne. intros ->. by rewrite Hid in Hk.
Qed.

Lemma PUT_other_records_witness :
  castObjectId sample_id <> Some other_id /\
  two_store !! sample_id = Some transfer_document /\
  (PUT idle_host sample_id edit_body two_store).1 !! sample_id =
    Some edited_document /\
  transfer_document <> edited_document /\
  (PUT idle_host sample_id edit_body two_store).1 !! other_id =
    Some undated_document.
Proof.
  assert (castObjectId sample_id <> Some other_id) as Hne by (by vm_compute).
  split; [exact Hne|]. split; [reflexivity|]. split; [by vm_compute|].
  split; [intros E; by apply (f_equal doc_type) in E|].
  rewrite (PUT_other_records idle_host sample_id other_id edit_body
             two_store Hne).
  reflexivity.
Defined.

(** X7: an edit whose keys are paths of the schema (no update operator)
    is idempotent: sending the same [PUT] a second time leaves the store of
    the first and gets the same answer. *)
Theorem PUT_idempotent (host : Host) (id : string) (body : Body) (st : Store) :
  plainBody body = true ->
  PUT host id body (PUT host id body st).1 = PUT host id body st.
Proof.
  intros Hp. destruct (castObjectId id) as [oid|] eqn:Hid.
  2:{ by rewrite !(PUT_malformed_id host id body _ Hid). }
  destruct (castFields host body) as [f|] eqn:Hf.
  2:{ unfold PUT. by rewrite Hid, Hp, Hf. }
  rewrite !(PUT_plain host id oid body f _ Hid Hp Hf).
  destruct (st !! oid) as [d|] eqn:Hd; simpl; [|by rewrite Hd].
  unfold setFields. destruct (f_id f) as [[oid'|]|]; simpl; [|by rewrite Hd|].
  - case_decide; simpl; [|by rewrite Hd].
    by rewrite lookup_insert_eq, insert_insert_eq, applyUpdate_idemp.
  - by rewrite lookup_insert_eq, insert_insert_eq, applyUpdate_idemp.
Qed.

Lemma PUT_idempotent_witness :
  plainBody edit_body = true /\
  PUT idle_host sample_id edit_body sample_store =
    ({[ sample_id := edited_document ]},
     Responded {| status := 200; payload := PDocument edited_document |}) /\
  PUT idle_host sample_id edit_body {[ sample_id := edited_document ]} =
    ({[ sample_id := edited_document ]},
     Responded {| status := 200; payload := PDocument edited_document |}).
Proof.
  split; [reflexivity|].
  assert (PUT idle_host sample_id edit_body sample_store =
    ({[ sample_id := edited_document ]},
     Responded {| status := 200; payload := PDocument edited_document |})) as E.
  { unfold sample_store. by vm_compute. }
  split; [exact E|].
  pose proof (PUT_idempotent idle_host sample_id edit_body sample_store eq_refl)
    as Hi.
  rewrite E in Hi. exact Hi.
Defined.

(** X8: after a delete under a well-formed id the store holds no record
    under that object id, every other id reads as before, and the number of
    records has dropped by one exactly when there was such a record. *)
Theorem DELETE_removes (id oid : string) (st : Store) :
  castObjectId id = Some oid ->
  (DELETE id st).1 !! oid = None /\
  (forall k, k <> oid -> (DELETE id st).1 !! k = st !! k) /\
  size st = (size (DELETE id st).1 +
             match st !! oid with Some _ => 1 | None => 0 end)%nat.
Proof.
  intros Hid. unfold DELETE. rewrite Hid. simpl. split_and!.
  - apply lookup_delete_eq.
  - intros k Hk. by apply lookup_delete_ne.
  - rewrite map_size_delete. destruct (st !! oid) eqn:E; simpl; [|lia].
    assert (size st <> 0%nat); [|lia].
    intros Hz%map_size_empty_inv. by rewrite Hz, lookup_empty in E.
Qed.
Lemma DELETE_removes_witness :
  castObjectId upper_sample_id = Some sample_id /\
  (DELETE upper_sample_id sample_store).1 !! sample_id = None /\
  size sample_store = 1%nat.
Proof.
  split; [reflexivity|].
  destruct (DELETE_removes upper_sample_id sample_id sample_store eq_refl)
    as (Hgone & _ & _).
  split; [exact Hgone | reflexivity].
Defined.




(** X10: the handlers keep every document under its own [_id]: if the
    store is so before a [POST], a [PUT] or a [DELETE], it is so after. *)
Theorem handlers_keep_keyed (host : Host) (newId id : string) (body : Body)
    (st : Store) :
  keyed st ->
  keyed (POST host newId body st).1 /\
  keyed (PUT host id body st).1 /\
  keyed (DELETE id st).1.
Proof.
  intros Hk. split_and!.
  - destruct (POST_cases host newId body st) as [H | [H | (f & _ & _ & H)]];
      rewrite H; simpl; [done..|].
    intros k d. rewrite lookup_insert_Some.
    intros [[<- <-] | [_ Hd]]; [done | by apply Hk].
  - destruct (PUT_cases host id body st)
      as [[e H] | [H | (oid & d0 & d' & _ & Hd0 & Hsame & H)]]; rewrite H; simpl;
      [done..|].
    intros k d. rewrite lookup_insert_Some.
    intros [[<- <-] | [_ Hd]]; [by rewrite Hsame, (Hk _ _ Hd0) | by apply Hk].
  - unfold DELETE. destruct (castObjectId id) as [oid|]; simpl; [|done].
    intros k d. rewrite lookup_delete_Some. intros [_ Hd]. by apply Hk.
Qed.

Lemma handlers_keep_keyed_witness :
  keyed sample_store /\
  keyed (PUT idle_host sample_id edit_body sample_store).1.
Proof.
  assert (keyed sample_store) as Hk.
  { intros k d. unfold sample_store. rewrite lookup_singleton_Some.
    by intros [<- <-]. }
  split; [exact Hk|].
  exact (proj1 (proj2 (handlers_keep_keyed idle_host sample_id sample_id
                         edit_body sample_store Hk))).
Defined.

(** X11: the list of [GET] holds every stored document once, and of two
    documents in it the later one never has the greater date: for dated
    documents the date of the earlier is at least the date of the later,
    and no document without a date comes before a dated one.  The status is
    200. *)
Theorem GET_lists_all_sorted (st : Store) :
  (GET st).1 = 200%nat /\
  (GET st).2 ≡ₚ (map_to_list st).*2 /\
  forall (i j : nat) (a b : Document),
    (i < j)%nat ->
    (GET st).2 !! i = Some a -> (GET st).2 !! j = Some b ->
    match doc_date a, doc_date b with
    | Some x, Some y => (y <= x)%Z
    | None, Some _ => False
    | _, None => True
    end.
Proof.
  split; [done|]. split; [apply findAllByDateDescending_perm|].
  intros i j a b Hij Ha Hb.
  pose proof (StronglySorted_lookup _ _ (dateBefore_sorted ((map_to_list st).*2))
                i j a b Hij Ha Hb) as Hs.
  simpl in Hs. destruct (doc_date a) as [x|], (doc_date b) as [y|];
    simpl in Hs; try done.
  by apply Z.ltb_ge.
Qed.

(** X12: fetching after a create shows exactly one more record, the one
    that the create answered with. *)
Theorem POST_then_GET (host : Host) (newId : string) (body : Body)
    (st st' : Store) (d : Document) :
  POST host newId body st =
    (st', Responded {| status := 200; payload := PDocument d |}) ->
  (GET st').2 ≡ₚ d :: (GET st).2.
Proof.
  intros Hp.
  destruct (POST_cases host newId body st) as [H | [H | (f & _ & Hfresh & H)]];
    rewrite H in Hp; [by inversion Hp..|].
  inversion Hp; subst; clear Hp. simpl.
  rewrite !findAllByDateDescending_perm.
  by rewrite map_to_list_insert.
Qed.

Lemma POST_then_GET_witness :
  POST idle_host sample_id transfer_body ∅ =
    ({[ sample_id := transfer_document ]},
     Responded {| status := 200; payload := PDocument transfer_document |}) /\
  (GET {[ sample_id := transfer_document ]}).2 ≡ₚ transfer_document :: (GET ∅).2.
Proof.
  split; [reflexivity|].
  exact (POST_then_GET idle_host sample_id transfer_body ∅
           {[ sample_id := transfer_document ]} transfer_document eq_refl).
Defined.

(** X13: fetching after a delete shows no record with the deleted object
    id, and shows every other record that was there. *)
Theorem DELETE_then_GET (id oid : string) (st : Store) :
  keyed st ->
  castObjectId id = Some oid ->
  forall d, d ∈ (GET (DELETE id st).1).2 <-> d ∈ (GET st).2 /\ doc_id d <> oid.
Proof.
  intros Hk Hid d. unfold DELETE. rewrite Hid. simpl.
  rewrite !findAllByDateDescending_perm, !list_elem_of_fmap. split.
  - intros ([k d'] & -> & Hin). apply elem_of_map_to_list in Hin.
    apply lookup_delete_Some in Hin as [Hne Hin]. split.
    + exists (k, d'). split; [done|]. by apply elem_of_map_to_list.
    + simpl. by rewrite (Hk _ _ Hin).
  - intros [([k d'] & -> & Hin) Hne]. apply elem_of_map_to_list in Hin.
    exists (k, d'). split; [done|]. apply elem_of_map_to_list.
    apply lookup_delete_Some. split; [|done].
    simpl in Hne. by rewrite (Hk _ _ Hin) in Hne.
Qed.

Lemma DELETE_then_GET_witness :
  keyed sample_store /\
  castObjectId upper_sample_id = Some sample_id /\
  (transfer_document ∈ (GET (DELETE upper_sample_id sample_store).1).2 <->
   transfer_document ∈ (GET sample_store).2 /\
   doc_id transfer_document <> sample_id).
Proof.
  assert (keyed sample_store) as Hk.
  { intros k d. unfold sample_store. rewrite lookup_singleton_Some.
    by intros [<- <-]. }
  split; [exact Hk|]. split; [reflexivity|].
  exact (DELETE_then_GET upper_sample_id sample_id sample_store Hk eq_refl
           transfer_document).
Defined.



(** The list of a store with three documents: the latest first, the one
    without a date last. *)
Example GET_sample_order :
  (GET ({[ sample_id := dated_document sample_id 100;
           other_id := undated_document;
           third_id := dated_document third_id 200 ]} : Store)).2 =
  [ dated_document third_id 200; dated_document sample_id 100;
    undated_document ].
Proof. by vm_compute. Qed.

(** * The aggregation engine: further properties *)

(** X15: when no date starts with [valueOf] and no year-month key is an
    array index (a key with a hyphen, as [2024-01], is none; a bare year
    is one), the keys of the monthly object are the distinct seven-character
    prefixes of the dates, each at the place where it occurs first in the
    list of transactions; this is the order in which [Object.entries] lists
    the buckets. *)
Theorem calculateMonthlyData_keys {num : Type} `{Number num}
    (txs : list (Transaction num)) :
  Forall (fun t => String.substring 0 7 (date t) <> "valueOf") txs ->
  Forall (fun t => arrayIndex (String.substring 0 7 (date t)) = None) txs ->
  exists md, calculateMonthlyData txs = Some md /\
    obj_keys md =
    firstOccurrences ((fun t => String.substring 0 7 (date t)) <$> txs).
Proof.
  intros Hd Hi. destruct (calculateMonthlyData_returns txs Hd) as [md Hmd].
  exists md. split; [done|]. clear Hd. revert txs md Hmd Hi.
  apply (calculateMonthlyData_ind (fun txs md =>
    Forall (fun t => arrayIndex (String.substring 0 7 (date t)) = None) txs ->
    obj_keys md =
    firstOccurrences ((fun t => String.substring 0 7 (date t)) <$> txs)));
    [done|].
  intros txs t md _ IH _ [Htxs [Ht _]%Forall_cons]%Forall_app.
  rewrite fmap_app. simpl. apply obj_keys_set_firstOccurrences; auto.
Qed.

Lemma calculateMonthlyData_keys_witness :
  Forall (fun t => String.substring 0 7 (date t) <> "valueOf") newest_first_txs /\
  Forall (fun t => arrayIndex (String.substring 0 7 (date t)) = None)
         newest_first_txs /\
  exists md, calculateMonthlyData newest_first_txs = Some md /\
    obj_keys md = ["2024-02"; "2024-01"].
Proof.
  assert (Forall (fun t => String.substring 0 7 (date t) <> "valueOf")
            newest_first_txs) as Hd.
  { repeat (apply List.Forall_cons; [by vm_compute|]). apply List.Forall_nil. }
  assert (Forall (fun t => arrayIndex (String.substring 0 7 (date t)) = None)
            newest_first_txs) as Hi.
  { repeat (apply List.Forall_cons; [by vm_compute|]). apply List.Forall_nil. }
  split; [exact Hd|]. split; [exact Hi|].
  destruct (calculateMonthlyData_keys newest_first_txs Hd Hi) as (md & Hmd & Hk).
  exists md. split; [exact Hmd|]. rewrite Hk. reflexivity.
Defined.


(** X17: when no label is an array index, the category totals have one
    entry per label of an expense-type transaction, [__proto__] apart, the
    labels in the order of their first such transaction; labels that only
    income-type transactions carry do not appear. *)
Theorem expensesByCategory_keys {num : Type} `{Number num}
    (txs : list (Transaction num)) :
  Forall (fun t => arrayIndex (category t) = None) txs ->
  obj_keys (expensesByCategory txs) =
  firstOccurrences
    (filter (fun c => c <> "__proto__")
       (category <$> filter (fun t => type t = "expense") txs)).
Proof.
  induction txs as [|t txs IH] using rev_ind; [done|].
  intros [Htxs [Ht _]%Forall_cons]%Forall_app.
  rewrite expensesByCategory_snoc, filter_app, fmap_app, filter_app,
    filter_cons, filter_nil.
  unfold categoryStep. destruct (isExpense t) eqn:E.
  - apply isExpense_true in E. rewrite decide_True by done.
    rewrite fmap_cons, filter_cons, fmap_nil, filter_nil.
    destruct (String.eqb_spec (category t) "__proto__") as [Hp|Hp].
    + rewrite decide_False by (by intros Hn). rewrite app_nil_r. by apply IH.
    + rewrite decide_True by done.
      apply obj_keys_set_firstOccurrences; auto.
  - apply isExpense_false in E. rewrite decide_False by done.
    rewrite fmap_nil, filter_nil, app_nil_r. by apply IH.
Qed.

Lemma expensesByCategory_keys_witness :
  Forall (fun t => arrayIndex (category t) = None)
         (example_txs ++ [proto_tx; constructor_tx]) /\
  obj_keys (expensesByCategory (example_txs ++ [proto_tx; constructor_tx])) =
    ["food"; "constructor"].
Proof.
  assert (Forall (fun t => arrayIndex (category t) = None)
            (example_txs ++ [proto_tx; constructor_tx])) as Hi.
  { repeat (apply List.Forall_cons; [by vm_compute|]). apply List.Forall_nil. }
  split; [exact Hi|].
  rewrite (expensesByCategory_keys _ Hi). reflexivity.
Defined.

(** X18: on JavaScript numbers, when the amounts are whole numbers, not
    negative, that add up to less than [2^53]: if the monthly aggregation
    returns, the expenses of the monthly buckets add up to the annual total
    of expenses; and if no expense is labelled with the name of a member of
    [Object.prototype], every category value is a number, the category
    totals add up to the sum of the amounts of the expense-type
    transactions, and, when every transaction is income-type or
    expense-type, to the annual total of expenses. *)
Theorem expenses_totals_agree (txs : list (Transaction float)) :
  wholeAmounts txs ->
  (forall md, calculateMonthlyData txs = Some md ->
     total (expenses <$> obj_values md) =
       annual_expenses (calculateAnnualData txs)) /\
  (Forall (fun t => type t = "expense" -> category t ∉ objectPrototypeNames) txs ->
   obj_values (expensesByCategory txs) =
     CNumber <$> categoryNumbers (obj_values (expensesByCategory txs)) /\
   total (categoryNumbers (obj_values (expensesByCategory txs))) =
     total (expenseAmounts txs) /\
   (Forall typed txs ->
    total (categoryNumbers (obj_values (expensesByCategory txs))) =
      annual_expenses (calculateAnnualData txs))).
Proof.
  intros Hw.
  destruct (calculateAnnualData_whole txs Hw) as (_ & He & _). split.
  - intros md Hmd.
    pose proof (monthly_total_whole expenses (fun t => type t <> "income")
                  txs md (fun g => eq_refl) Hmd Hw) as Hme.
    by apply (integer_valued_inj _ _ _ Hme).
  - intros Hl. destruct (categories_total_whole txs Hw Hl) as [Hnum Hc].
    assert (total (categoryNumbers (obj_values (expensesByCategory txs))) =
            total (expenseAmounts txs)) as Heq.
    { apply (integer_valued_inj _ _ _ Hc).
      apply (total_filter_whole (fun t => type t = "expense") txs Hw). }
    split; [done|]. split; [done|].
    intros Ht. by rewrite Heq, calculateAnnualData_eq, (otherAmounts_typed txs Ht).
Qed.

Lemma expenses_totals_agree_witness :
  wholeAmounts example_txs /\
  Forall (fun t => type t = "expense" -> category t ∉ objectPrototypeNames)
         example_txs /\
  (exists md, calculateMonthlyData example_txs = Some md /\
     total (expenses <$> obj_values md) = 250%float) /\
  total (categoryNumbers (obj_values (expensesByCategory example_txs))) =
    250%float.
Proof.
  assert (Forall (fun t => type t = "expense" -> category t ∉ objectPrototypeNames)
            example_txs) as Hl.
  { repeat (apply List.Forall_cons;
              [intros _; apply inheritedFromObject_false; reflexivity|]).
    apply List.Forall_nil. }
  destruct (expenses_totals_agree example_txs example_txs_whole) as [Hm Hc].
  destruct (Hc Hl) as (_ & Hsum & _).
  split; [exact example_txs_whole|]. split; [exact Hl|]. split.
  - exists (default [] (calculateMonthlyData example_txs)).
    split; [reflexivity|].
    pose proof (Hm (default [] (calculateMonthlyData example_txs)) eq_refl) as E.
    rewrite E. reflexivity.
  - rewrite Hsum. reflexivity.
Defined.

(** X19: on JavaScript numbers, when the amounts of the local list and
    of a saved transaction are whole numbers, not negative, that add up to
    less than [2^53], adding the saved transaction to the list moves the
    annual totals by its amount: an income-type transaction raises income
    and balance by the amount and leaves expenses, any other raises
    expenses by the amount and lowers the balance by it. *)
Theorem addTransaction_annual (saved : Transaction float)
    (txs : list (Transaction float)) :
  wholeAmounts (saved :: txs) ->
  if decide (type saved = "income")
  then annual_income (calculateAnnualData (addTransaction saved txs)) =
         (annual_income (calculateAnnualData txs) + amount saved)%float /\
       annual_expenses (calculateAnnualData (addTransaction saved txs)) =
         annual_expenses (calculateAnnualData txs) /\
       annual_balance (calculateAnnualData (addTransaction saved txs)) =
         (annual_balance (calculateAnnualData txs) + amount saved)%float
  else annual_income (calculateAnnualData (addTransaction saved txs)) =
         annual_income (calculateAnnualData txs) /\
       annual_expenses (calculateAnnualData (addTransaction saved txs)) =
         (annual_expenses (calculateAnnualData txs) + amount saved)%float /\
       annual_balance (calculateAnnualData (addTransaction saved txs)) =
         (annual_balance (calculateAnnualData txs) - amount saved)%float.
Proof.
  intros Hw. unfold addTransaction.
  assert (wholeAmounts txs) as Hw'.
  { apply (wholeAmounts_submseteq txs (saved :: txs)); [|done].
    by apply submseteq_cons. }
  destruct (calculateAnnualData_whole _ Hw) as (Hi & He & Hb).
  destruct (calculateAnnualData_whole _ Hw') as (Hi' & He' & Hb').
  destruct (total_filter_whole (fun t => type t = "income") txs Hw') as [_ Hbi].
  destruct (total_filter_whole (fun t => type t <> "income") txs Hw') as [_ Hbo].
  pose proof (sumZ_income_other txs) as Hio.
  destruct (wholeAmounts_bound _ Hw) as [[Hs0 _]%Forall_cons Hbound].
  destruct Hw as [[[Hs _] _]%Forall_cons _].
  rewrite fmap_cons, sumZ_cons in Hbound.
  change (Prim2SF (amount saved) = SFofZ (toInteger (amount saved)))
    with (integer_valued (amount saved) (wholeAmount saved)) in Hs.
  destruct (decide (type saved = "income")) as [Ht|Ht].
  - rewrite (filter_cons_True (fun t => type t = "income")) in Hi, Hb by done.
    rewrite (filter_cons_False (fun t => type t <> "income")) in He, Hb by tauto.
    rewrite fmap_cons, sumZ_cons in Hi, Hb. split_and!.
    + apply (integer_valued_inj _ _ _ Hi).
      rewrite Z.add_comm. apply add_integer; [done | done | lia..].
    + by apply (integer_valued_inj _ _ _ He).
    + apply (integer_valued_inj _ _ _ Hb).
      match goal with |- integer_valued _ ?z =>
        replace z with
          ((sumZ (wholeAmount <$> filter (fun t => type t = "income") txs) -
            sumZ (wholeAmount <$> filter (fun t => type t <> "income") txs)) +
           wholeAmount saved)%Z by lia end.
      apply add_integer; [done | done | lia..].
  - rewrite (filter_cons_False (fun t => type t = "income")) in Hi, Hb by done.
    rewrite (filter_cons_True (fun t => type t <> "income")) in He, Hb by done.
    rewrite fmap_cons, sumZ_cons in He, Hb. split_and!.
    + by apply (integer_valued_inj _ _ _ Hi).
    + apply (integer_valued_inj _ _ _ He).
      rewrite Z.add_comm. apply add_integer; [done | done | lia..].
    + apply (integer_valued_inj _ _ _ Hb).
      match goal with |- integer_valued _ ?z =>
        replace z with
          ((sumZ (wholeAmount <$> filter (fun t => type t = "income") txs) -
            sumZ (wholeAmount <$> filter (fun t => type t <> "income") txs)) -
           wholeAmount saved)%Z by lia end.
      apply sub_integer; [done | done | lia..].
Qed.

Lemma addTransaction_annual_witness :
  wholeAmounts (tx "expense" 30 "fun" "2024-03-01" :: example_txs) /\
  annual_expenses (calculateAnnualData
    (addTransaction (tx "expense" 30 "fun" "2024-03-01") example_txs)) =
    280%float /\
  annual_balance (calculateAnnualData
    (addTransaction (tx "expense" 30 "fun" "2024-03-01") example_txs)) =
    720%float.
Proof.
  assert (wholeAmounts (tx "expense" 30 "fun" "2024-03-01" :: example_txs))
    as Hw.
  { split; [|by vm_compute].
    repeat (apply List.Forall_cons; [split; [reflexivity | by vm_compute]|]).
    apply List.Forall_nil. }
  pose proof (addTransaction_annual (tx "expense" 30 "fun" "2024-03-01")
                example_txs Hw) as Ha.
  rewrite decide_False in Ha by (simpl; discriminate).
  destruct Ha as (_ & He & Hb).
  split; [exact Hw|]. split.
  - rewrite He. reflexivity.
  - rewrite Hb. reflexivity.
Defined.

(** X20: when the ids of the local list are pairwise distinct and the
    monthly aggregation of the list returns, it returns after a
    transaction is deleted, the bucket of every other month is as it was,
    and the bucket of the deleted transaction's month remains exactly when
    another transaction of that month exists. *)
Theorem deleteTransaction_months {num : Type} `{Number num}
    (t0 : Transaction num) (txs : list (Transaction num))
    (md : MonthlyData num) :
  NoDup (_id <$> txs) ->
  t0 ∈ txs ->
  calculateMonthlyData txs = Some md ->
  exists md',
    calculateMonthlyData (deleteTransaction (_id t0) txs) = Some md' /\
    (forall k, k <> String.substring 0 7 (date t0) ->
       obj_get k md' = obj_get k md) /\
    (is_Some (obj_get (String.substring 0 7 (date t0)) md') <->
     exists t, t ∈ txs /\ t <> t0 /\
       String.substring 0 7 (date t) = String.substring 0 7 (date t0)).
Proof.
  intros Hnd Hin Hmd.
  assert (plainDates (deleteTransaction (_id t0) txs)) as Hd.
  { pose proof (calculateMonthlyData_plainDates txs md Hmd) as Hp.
    unfold plainDates, deleteTransaction in *. rewrite Forall_forall in Hp |- *.
    intros t [_ Ht]%list_elem_of_filter. by apply Hp. }
  destruct (calculateMonthlyData_returns _ Hd) as [md' Hmd'].
  exists md'. split; [done|].
  assert (forall k, obj_get k md = monthBucket k txs) as Hget
    by (intros k; by apply calculateMonthlyData_get).
  assert (forall k, obj_get k md' =
            monthBucket k (deleteTransaction (_id t0) txs)) as Hget'
    by (intros k; by apply calculateMonthlyData_get).
  split.
  - intros k Hk. rewrite Hget, Hget'. unfold monthBucket.
    rewrite inMonth_deleteTransaction, filter_all; [done|].
    apply Forall_forall. intros t [Hm Ht]%list_elem_of_filter Hid.
    apply Hk. rewrite <- Hm. do 2 f_equal.
    symmetry. by apply (NoDup_fmap_elem_eq _id txs).
  - rewrite Hget', monthBucket_is_Some.
    unfold deleteTransaction. split.
    + intros (t & [Hid Ht]%list_elem_of_filter & Hm).
      exists t. split_and!; [done | | done]. by intros ->.
    + intros (t & Ht & Hne & Hm). exists t. split; [|done].
      apply list_elem_of_filter. split; [|done].
      intros Hid. apply Hne. by apply (NoDup_fmap_elem_eq _id txs).
Qed.

Lemma deleteTransaction_months_witness :
  NoDup (_id <$> ledger) /\
  tx_id "a3" "expense" 50 "food" "2024-02-01" ∈ ledger /\
  is_Some (calculateMonthlyData ledger) /\
  exists md',
    calculateMonthlyData (deleteTransaction "a3" ledger) = Some md' /\
    obj_get "2024-02" md' = None /\
    obj_get "2024-01" md' =
      obj_get "2024-01" (default [] (calculateMonthlyData ledger)).
Proof.
  assert (NoDup (_id <$> ledger)) as Hnd.
  { apply (bool_decide_unpack _). by vm_compute. }
  assert (tx_id "a3" "expense" 50 "food" "2024-02-01" ∈ ledger) as Hin.
  { unfold ledger. do 2 (apply elem_of_cons; right). apply elem_of_cons.
    by left. }
  destruct (deleteTransaction_months _ ledger
              (default [] (calculateMonthlyData ledger)) Hnd Hin eq_refl)
    as (md' & Hmd' & Hother & _).
  split; [exact Hnd|]. split; [exact Hin|]. split; [by eexists|].
  exists md'. split; [exact Hmd'|]. split.
  - assert (Some md' = Some (default [] (calculateMonthlyData
              (deleteTransaction "a3" ledger)))) as E by (by rewrite <- Hmd').
    injection E as ->. reflexivity.
  - apply (Hother "2024-01"). by vm_compute.
Defined.


(** * The local state: further properties *)

(** X21: reconciling an edit keeps the list in shape: with a saved record
    the new list has the same length and the same ids at the same places,
    every record under the saved id is the saved record, every record under
    another id is the one that was at its place, and a list without the
    saved id is unchanged.  With the [null] of an edit that found nothing,
    the update throws exactly when the list is not empty. *)
Theorem editTransaction_replaces {num : Type} (saved : Transaction num)
    (txs : list (Transaction num)) :
  (exists txs',
     editTransaction (Some saved) txs = Some txs' /\
     length txs' = length txs /\
     _id <$> txs' = _id <$> txs /\
     Forall (fun t => _id t = _id saved -> t = saved) txs' /\
     (forall i t, txs' !! i = Some t -> _id t <> _id saved ->
                  txs !! i = Some t) /\
     (Forall (fun t => _id t <> _id saved) txs -> txs' = txs)) /\
  (editTransaction None txs = None <-> txs <> []).
Proof.
  split.
  - eexists. split; [destruct txs; reflexivity|].
    set (g := fun t : Transaction num =>
                if String.eqb (_id t) (_id saved) then saved else t).
    change (map g txs) with (g <$> txs).
    assert (forall t, _id (g t) = _id t) as Hid.
    { intros t. unfold g. destruct (String.eqb_spec (_id t) (_id saved)); done. }
    split_and!.
    + apply length_fmap.
    + rewrite <- list_fmap_compose. apply list_fmap_ext. intros _ t _. apply Hid.
    + apply Forall_fmap, Forall_forall. intros t _. unfold g. simpl.
      destruct (String.eqb_spec (_id t) (_id saved)); [done|].
      intros; congruence.
    + intros i t. rewrite list_lookup_fmap.
      destruct (txs !! i) as [t1|]; simpl; [|done]. intros [= <-].
      unfold g. destruct (String.eqb_spec (_id t1) (_id saved)); [|done].
      intros Hne. by destruct Hne.
    + intros Hall. rewrite <- (list_fmap_id txs) at 2.
      apply Forall_fmap_ext_1. eapply Forall_impl; [exact Hall|].
      intros t Ht. unfold g.
      destruct (String.eqb_spec (_id t) (_id saved)); done.
  - destruct txs; simpl; split; done.
Qed.

(** X22: adding a saved record under an id that the local list does not
    hold, and then deleting that id, gives back the list as it was. *)
Theorem addTransaction_then_deleteTransaction {num : Type}
    (saved : Transaction num) (txs : list (Transaction num)) :
  Forall (fun t => _id t <> _id saved) txs ->
  deleteTransaction (_id saved) (addTransaction saved txs) = txs.
Proof.
  intros Hfresh. unfold deleteTransaction, addTransaction.
  rewrite filter_cons_False by (intros Hne; by apply Hne).
  by apply filter_all.
Qed.

Lemma addTransaction_then_deleteTransaction_witness :
  Forall (fun t : Transaction float => _id t <> "a9") ledger /\
  deleteTransaction "a9"
    (addTransaction (tx_id "a9" "income" 5 "gift" "2024-03-01") ledger) =
  ledger.
Proof.
  assert (Forall (fun t : Transaction float => _id t <> "a9") ledger) as Hf.
  { unfold ledger. repeat (apply List.Forall_cons; [by vm_compute|]).
    apply List.Forall_nil. }
  split; [exact Hf|].
  exact (addTransaction_then_deleteTransaction
           (tx_id "a9" "income" 5 "gift" "2024-03-01") ledger Hf).
Defined.

(** X23: deleting by id removes every record under that id and nothing
    else, keeps the order of the others, and is idempotent; and deleting the
    id of a record just edited gives the same list as deleting it without
    the edit. *)
Theorem deleteTransaction_removes {num : Type} (id : string)
    (saved : Transaction num) (txs : list (Transaction num)) :
  Forall (fun t => _id t <> id) (deleteTransaction id txs) /\
  deleteTransaction id txs `sublist_of` txs /\
  (forall t, t ∈ txs -> _id t = id \/ t ∈ deleteTransaction id txs) /\
  deleteTransaction id (deleteTransaction id txs) = deleteTransaction id txs /\
  deleteTransaction (_id saved) <$> editTransaction (Some saved) txs =
    Some (deleteTransaction (_id saved) txs).
Proof.
  unfold deleteTransaction. split_and!.
  - apply Forall_forall. by intros t [? _]%list_elem_of_filter.
  - apply sublist_filter.
  - intros t Ht. destruct (decide (_id t = id)); [by left|].
    right. by apply list_elem_of_filter.
  - rewrite list_filter_filter. apply list_filter_iff. tauto.
  - destruct txs as [|t0 txs0] eqn:E; [done|]. rewrite <- E. clear E t0 txs0.
    assert (editTransaction (Some saved) txs =
            Some ((fun t => if String.eqb (_id t) (_id saved) then saved else t)
                    <$> txs)) as -> by (by destruct txs).
    simpl. f_equal. induction txs as [|t txs IH]; [done|].
    rewrite fmap_cons, !filter_cons, IH.
    destruct (String.eqb_spec (_id t) (_id saved)) as [Heq|Hne].
    + rewrite !decide_False; [done | by intros Hn | by intros Hn].
    + by rewrite !decide_True.
Qed.

(** X24: toggling a month flips its membership in the list of expanded
    months and leaves the membership of every other month as it was. *)
Theorem toggleMonthExpansion_flips (month : string) (prev : list string) :
  forall m, m ∈ toggleMonthExpansion month prev <->
            (m = month /\ month ∉ prev) \/ (m <> month /\ m ∈ prev).
Proof.
  intros m. unfold toggleMonthExpansion. case_decide as Hin.
  - rewrite list_elem_of_filter. split.
    + intros [Hne Hm]. by right.
    + intros [[-> Hn] | [Hne Hm]]; [done | by split].
  - rewrite elem_of_app, list_elem_of_singleton. split.
    + intros [Hm | ->]; [|by left].
      right. split; [|done]. by intros ->.
    + intros [[-> _] | [_ Hm]]; [by right | by left].
Qed.

(** X25: on a list of expanded months without repetition, toggling keeps
    the list without repetition; toggling a closed month twice gives back
    the very list, and toggling an open month twice gives back the same
    months, the toggled one moved to the end. *)
Theorem toggleMonthExpansion_twice (month : string) (prev : list string) :
  NoDup prev ->
  NoDup (toggleMonthExpansion month prev) /\
  toggleMonthExpansion month (toggleMonthExpansion month prev) =
    (if decide (month ∈ prev)
     then filter (fun m => m <> month) prev ++ [month]
     else prev) /\
  toggleMonthExpansion month (toggleMonthExpansion month prev) ≡ₚ prev.
Proof.
  intros Hnd.
  assert (month ∉ filter (fun m => m <> month) prev) as Hout.
  { by intros [? _]%list_elem_of_filter. }
  assert (month ∉ prev -> filter (fun m => m <> month) prev = prev) as Hid.
  { intros Hn. apply filter_all, Forall_forall. by intros m Hm ->. }
  assert (toggleMonthExpansion month (toggleMonthExpansion month prev) =
          (if decide (month ∈ prev)
           then filter (fun m => m <> month) prev ++ [month]
           else prev)) as Heq.
  { unfold toggleMonthExpansion. destruct (decide (month ∈ prev)) as [Hin|Hn].
    - by rewrite decide_False.
    - rewrite decide_True by (apply elem_of_app; right; by apply list_elem_of_singleton).
      rewrite filter_app, filter_cons_False, filter_nil, app_nil_r by (by intros Hne).
      by apply Hid. }
  split_and!.
  - unfold toggleMonthExpansion. case_decide.
    + by apply NoDup_filter.
    + apply NoDup_app. split_and!; [done | | apply NoDup_singleton].
      by intros m Hm ->%list_elem_of_singleton.
  - exact Heq.
  - rewrite Heq. case_decide as Hin; [|done].
    rewrite Permutation_app_comm. simpl.
    apply NoDup_Permutation; [|done|].
    + apply NoDup_cons. split; [done | by apply NoDup_filter].
    + intros m. rewrite elem_of_cons, list_elem_of_filter.
      destruct (decide (m = month)) as [->|Hne].
      * split; [by intros _ | intros _; by left].
      * split; [by intros [? | [_ ?]] | intros ?; by right].
Qed.

Lemma toggleMonthExpansion_twice_witness :
  NoDup ["2024-01"; "2024-02"] /\
  toggleMonthExpansion "2024-03"
    (toggleMonthExpansion "2024-03" ["2024-01"; "2024-02"]) =
    ["2024-01"; "2024-02"] /\
  toggleMonthExpansion "2024-01"
    (toggleMonthExpansion "2024-01" ["2024-01"; "2024-02"]) =
    ["2024-02"; "2024-01"].
Proof.
  assert (NoDup ["2024-01"; "2024-02"]) as Hnd.
  { apply (bool_decide_unpack _). by vm_compute. }
  split; [exact Hnd|]. split.
  - rewrite (proj1 (proj2 (toggleMonthExpansion_twice "2024-03" _ Hnd))).
    reflexivity.
  - reflexivity.
Defined.

(** X26: every pie cell gets a colour of the palette, and cells six
    places apart get the same colour. *)
Theorem cellColor_defined (index : nat) :
  is_Some (cellColor index) /\ cellColor (index + 6) = cellColor index.
Proof.
  unfold cellColor. change (length COLORS) with 6%nat. split.
  - apply lookup_lt_is_Some. change (length COLORS) with 6%nat.
    apply Nat.mod_upper_bound. lia.
  - f_equal. rewrite <- (Nat.mul_1_l 6) at 1.
    by rewrite Nat.Div0.mod_add.
Qed.


(** * The chart series: further properties *)


(** X28: on a host that reads every label of the buckets back as a time,
    the chart series is in ascending order of those times; if moreover
    different buckets are read as different times, the series is the same
    whatever the order of the keys in the object. *)
Theorem monthlyChartData_readable {num : Type} (host : DateHost)
    (md : MonthlyData num) :
  Forall (fun entry => is_Some (labelTime host (monthLabel host entry.1))) md ->
  StronglySorted (fun e1 e2 => entryTime host e1 <= entryTime host e2)%Z
                 (monthlyChartData host md) /\
  (NoDup ((fun entry => entryTime host (chartEntry host entry)) <$> md) ->
   forall md', md ≡ₚ md' -> monthlyChartData host md' = monthlyChartData host md).
Proof.
  intros Hall. split.
  - by apply monthlyChartData_sorted.
  - intros Hnd md' Hp. by apply monthlyChartData_order_independent.
Qed.

Lemma monthlyChartData_readable_witness :
  Forall (fun entry : string * MonthlyBucket float =>
            is_Some (labelTime english_host (monthLabel english_host entry.1)))
         (default [] (calculateMonthlyData newest_first_txs)) /\
  StronglySorted
    (fun e1 e2 => entryTime english_host e1 <= entryTime english_host e2)%Z
    (monthlyChartData english_host (default [] (calculateMonthlyData newest_first_txs))).
Proof.
  assert (Forall (fun entry : string * MonthlyBucket float =>
            is_Some (labelTime english_host (monthLabel english_host entry.1)))
            (default [] (calculateMonthlyData newest_first_txs))) as Hall.
  { repeat constructor; by eexists. }
  split; [exact Hall|].
  exact (proj1 (monthlyChartData_readable english_host _ Hall)).
Defined.



